(** * warg: the browser session manager and its WebSocket front end

    A shallow embedding of [src/browser.ts] (class [BrowserManager]) and of
    the WebSocket half of [src/server.ts] (class [WargServer]), and the
    properties of the session life cycle and of the notification protocol
    proved about them.

    The asynchronous methods are written in a small monad of programs whose
    nodes are the things a method can do: read or write the fields of
    [this], call the logger, send on a socket, call the browser driver
    synchronously, or [await] a driver promise.  An [await] is the only
    place where the JavaScript scheduler may run another task. *)

From stdpp Require Import base strings list gmap pretty.

Local Open Scope string_scope.

Local Open Scope list_scope.

(** * The model *)

(** ** JavaScript values *)

(** A JSON-like value, as produced by [JSON.parse] or built by an object
    literal.  A number is kept as the text [String(n)] gives for it: the
    code never computes with a number, it only tests it for truth and
    prints it. *)
#[local] Unset Elimination Schemes.

Inductive JsValue : Type :=
| JsUndefined
| JsNull
| JsBool (b : bool)
| JsNumber (text : string)
| JsString (s : string)
| JsArray (items : list JsValue)
| JsObject (fields : list (string * JsValue)).

#[local] Set Elimination Schemes.

(** A thrown value: an [Error] object with its message, or anything else. *)
Inductive Exn : Type :=
| ErrorObject (message : string)
| NonError (v : JsValue).

(** [String(v)], also what a template literal does to [v]. *)
Fixpoint js_to_string (v : JsValue) : string :=
  match v with
  | JsUndefined => "undefined"
  | JsNull => "null"
  | JsBool true => "true"
  | JsBool false => "false"
  | JsNumber text => text
  | JsString s => s
  | JsArray items =>
      (fix join (l : list JsValue) : string :=
         match l with
         | [] => ""
         | x :: rest =>
             let head :=
               match x with
               | JsUndefined | JsNull => ""
               | _ => js_to_string x
               end in
             match rest with
             | [] => head
             | _ :: _ => head +:+ "," +:+ join rest
             end
         end) items
  | JsObject _ => "[object Object]"
  end.

(** Truthiness, as tested by [?:], [||] and [if]. *)
Definition js_truthy (v : JsValue) : bool :=
  match v with
  | JsUndefined | JsNull => false
  | JsBool b => b
  | JsNumber text => negb (String.eqb text "0" || String.eqb text "NaN")
  | JsString s => negb (String.eqb s "")
  | JsArray _ | JsObject _ => true
  end.

(** [a || b]. *)
Definition js_or (a b : JsValue) : JsValue := if js_truthy a then a else b.

(** [v === "literal"]. *)
Definition js_is_string (v : JsValue) (literal : string) : bool :=
  match v with
  | JsString s => String.eqb s literal
  | _ => false
  end.

Fixpoint assoc (name : string) (fields : list (string * JsValue)) : JsValue :=
  match fields with
  | [] => JsUndefined
  | (k, v) :: rest => if String.eqb k name then v else assoc name rest
  end.

(** [v.name] for the property names the code reads ([type], [data], [url],
    [selector], [text], [script], [fullPage]): none of them is inherited by
    a string, a number, a boolean or an array, so only an object can have
    one.  Reading a property of [undefined] or [null] throws a TypeError. *)
Definition js_get (v : JsValue) (name : string) : JsValue + Exn :=
  match v with
  | JsUndefined =>
      inr (ErrorObject
             ("Cannot read properties of undefined (reading '" +:+ name +:+ "')"))
  | JsNull =>
      inr (ErrorObject
             ("Cannot read properties of null (reading '" +:+ name +:+ "')"))
  | JsObject fields => inl (assoc name fields)
  | _ => inl JsUndefined
  end.

(** [v?.name]. *)
Definition js_get_optional (v : JsValue) (name : string) : JsValue :=
  match v with
  | JsObject fields => assoc name fields
  | _ => JsUndefined
  end.

(** [error instanceof Error ? error.message : String(error)]. *)
Definition error_text (e : Exn) : string :=
  match e with
  | ErrorObject message => message
  | NonError v => js_to_string v
  end.

(** ** The browser driver (puppeteer) *)

(** Handles of the driver's objects. *)
Definition Browser := nat.

Definition Page := nat.

(** Handles of the [WebSocket] objects of the transport. *)
Definition Socket := nat.

(** The driver calls the code makes.  [TitleAndUrl] is the single [await]
    of [getPageInfo], on [Promise.all] of [title()] and [url()]; [Url] and
    [On] are synchronous, every other call returns a promise. *)
Inductive DriverOp : Type :=
| Launch
| NewPage (b : Browser)
| SetViewport (p : Page) (width height : nat)
| On (p : Page) (event : string)
| PageClose (p : Page)
| BrowserClose (b : Browser)
| Goto (p : Page) (url : JsValue)
| Click (p : Page) (selector : JsValue)
| TypeText (p : Page) (selector text : JsValue)
| Screenshot (p : Page) (fullPage : JsValue)
| Evaluate (p : Page) (script : JsValue)
| Reload (p : Page)
| GoBack (p : Page)
| GoForward (p : Page)
| Url (p : Page)
| TitleAndUrl (p : Page).

(** What a call yields when it succeeds. *)
Definition result_ty (op : DriverOp) : Type :=
  match op with
  | Launch => Browser
  | NewPage _ => Page
  | Screenshot _ _ => string
  | Evaluate _ _ => JsValue
  | Url _ => string
  | TitleAndUrl _ => (string * string)%type
  | _ => unit
  end.

(** A call succeeds with a value or fails with a thrown value (a rejected
    promise; a timeout is a rejection). *)
Definition Outcome (op : DriverOp) : Type := (result_ty op + Exn)%type.

Definition succeeded {A : Type} (r : A + Exn) : bool :=
  match r with inl _ => true | inr _ => false end.

Definition is_launch (op : DriverOp) : bool :=
  match op with Launch => true | _ => false end.

(** ** Messages and observable events *)

Inductive Level : Type := debug | info | warn | err.

(** A message of the persistent channel, before [JSON.stringify]; an absent
    field is [JsUndefined]. *)
Record WSMessage : Type := {
  ws_type : JsValue;
  ws_data : JsValue;
  ws_error : JsValue;
  ws_id : JsValue
}.

(** What a program does that the outside can see, in the order it does it. *)
Inductive Event : Type :=
| Logged (level : Level) (message : string)
| Sent (ws : Socket) (message : WSMessage)
| Issued (op : DriverOp)
| Settled (op : DriverOp) (ok : bool).

Definition is_driver_event (ev : Event) : bool :=
  match ev with
  | Issued _ | Settled _ _ => true
  | _ => false
  end.

(** ** Programs *)

Section Programs.

Context {St : Type}.

(** [St] is the type of the object the methods are called on. *)
Inductive prog (A : Type) : Type :=
| Ret (a : A)
| Throw (e : Exn)
| Get (k : St -> prog A)
| Put (s : St) (k : prog A)
| Emit (ev : Event) (k : prog A)
| Call (op : DriverOp) (k : Outcome op -> prog A)
| Await (op : DriverOp) (k : Outcome op -> prog A).

Global Arguments Ret {A} a.
Global Arguments Throw {A} e.
Global Arguments Get {A} k.
Global Arguments Put {A} s k.
Global Arguments Emit {A} ev k.
Global Arguments Call {A} op k.
Global Arguments Await {A} op k.

Fixpoint bind {A B : Type} (p : prog A) (f : A -> prog B) : prog B :=
  match p with
  | Ret a => f a
  | Throw e => Throw e
  | Get k => Get (fun s => bind (k s) f)
  | Put s k => Put s (bind k f)
  | Emit ev k => Emit ev (bind k f)
  | Call op k => Call op (fun r => bind (k r) f)
  | Await op k => Await op (fun r => bind (k r) f)
  end.

(** [try { p } catch (error) { handler error }]. *)
Fixpoint try_catch {A : Type} (p : prog A) (handler : Exn -> prog A) : prog A :=
  match p with
  | Ret a => Ret a
  | Throw e => handler e
  | Get k => Get (fun s => try_catch (k s) handler)
  | Put s k => Put s (try_catch k handler)
  | Emit ev k => Emit ev (try_catch k handler)
  | Call op k => Call op (fun r => try_catch (k r) handler)
  | Await op k => Await op (fun r => try_catch (k r) handler)
  end.

(** [try { p } finally { cleanup }]: the cleanup runs on both exits and
    the exit of [p] stands unless the cleanup itself throws. *)
Fixpoint try_finally {A : Type} (p : prog A) (cleanup : prog unit) : prog A :=
  match p with
  | Ret a => bind cleanup (fun _ => Ret a)
  | Throw e => bind cleanup (fun _ => Throw e)
  | Get k => Get (fun s => try_finally (k s) cleanup)
  | Put s k => Put s (try_finally k cleanup)
  | Emit ev k => Emit ev (try_finally k cleanup)
  | Call op k => Call op (fun r => try_finally (k r) cleanup)
  | Await op k => Await op (fun r => try_finally (k r) cleanup)
  end.

Definition get : prog St := Get Ret.

Definition modify (f : St -> St) : prog unit := Get (fun s => Put (f s) (Ret tt)).

Definition throw {A : Type} (e : Exn) : prog A := Throw e.

Definition emit (ev : Event) : prog unit := Emit ev (Ret tt).

(** [logger.level(message, meta)]; the metadata object is not kept. *)
Definition log (level : Level) (message : string) : prog unit :=
  emit (Logged level message).

(** A value or a throw, lifted. *)
Definition lift {A : Type} (r : A + Exn) : prog A :=
  match r with inl a => Ret a | inr e => Throw e end.

(** [op(...)], synchronous. *)
Definition call (op : DriverOp) : prog (result_ty op) := Call op lift.

(** [await op(...)]. *)
Definition await (op : DriverOp) : prog (result_ty op) := Await op lift.

End Programs.

Global Arguments prog : clear implicits.

Global Instance prog_ret {St : Type} : MRet (prog St) := fun A a => Ret a.

Global Instance prog_bind {St : Type} : MBind (prog St) := fun A B f p => bind p f.

(** A method of a field, run on the enclosing object. *)
Fixpoint zoom {St M A : Type} (proj : St -> M) (upd : M -> St -> St)
    (p : prog M A) : prog St A :=
  match p with
  | Ret a => Ret a
  | Throw e => Throw e
  | Get k => Get (fun s => zoom proj upd (k (proj s)))
  | Put m k => Get (fun s => Put (upd m s) (zoom proj upd k))
  | Emit ev k => Emit ev (zoom proj upd k)
  | Call op k => Call op (fun r => zoom proj upd (k r))
  | Await op k => Await op (fun r => zoom proj upd (k r))
  end.

(** ** Running a program *)

Section Semantics.

Context {St A : Type}.

(** The driver's answers: the outcome of the [n]-th driver call. *)
Definition Answers : Type := nat -> forall op : DriverOp, Outcome op.

(** How a program stands when it gives up the processor. *)
Inductive Status : Type :=
| Finished (r : A + Exn)
| Blocked (op : DriverOp) (k : Outcome op -> prog St A).

Record Quantum : Type := {
  q_state : St;
  q_events : list Event;
  q_calls : nat;
  q_status : Status
}.

(** One turn of the event loop: the program runs from [s], after [n]
    driver calls, up to its next [await] or to its end. *)
Fixpoint advance (p : prog St A) (answer : Answers) (n : nat) (s : St) : Quantum :=
  match p with
  | Ret a => {| q_state := s; q_events := []; q_calls := n; q_status := Finished (inl a) |}
  | Throw e => {| q_state := s; q_events := []; q_calls := n; q_status := Finished (inr e) |}
  | Get k => advance (k s) answer n s
  | Put s' k => advance k answer n s'
  | Emit ev k =>
      let q := advance k answer n s in
      {| q_state := q_state q; q_events := ev :: q_events q;
         q_calls := q_calls q; q_status := q_status q |}
  | Call op k =>
      let r := answer n op in
      let q := advance (k r) answer (S n) s in
      {| q_state := q_state q;
         q_events := Issued op :: Settled op (succeeded r) :: q_events q;
         q_calls := q_calls q; q_status := q_status q |}
  | Await op k =>
      {| q_state := s; q_events := [Issued op]; q_calls := n; q_status := Blocked op k |}
  end.

Record Run : Type := {
  final : St;
  events : list Event;
  result : A + Exn
}.

(** A whole call, from [s] to the settling of its promise.  While the
    call waits for its [n]-th driver call the other tasks turn the state
    [s] into [meanwhile n s]. *)
Fixpoint exec (p : prog St A) (answer : Answers) (meanwhile : nat -> St -> St)
    (n : nat) (s : St) : Run :=
  match p with
  | Ret a => {| final := s; events := []; result := inl a |}
  | Throw e => {| final := s; events := []; result := inr e |}
  | Get k => exec (k s) answer meanwhile n s
  | Put s' k => exec k answer meanwhile n s'
  | Emit ev k =>
      let r := exec k answer meanwhile n s in
      {| final := final r; events := ev :: events r; result := result r |}
  | Call op k =>
      let o := answer n op in
      let r := exec (k o) answer meanwhile (S n) s in
      {| final := final r;
         events := Issued op :: Settled op (succeeded o) :: events r;
         result := result r |}
  | Await op k =>
      let o := answer n op in
      let r := exec (k o) answer meanwhile (S n) (meanwhile n s) in
      {| final := final r;
         events := Issued op :: Settled op (succeeded o) :: events r;
         result := result r |}
  end.

(** A call that no other task interleaves with. *)
Definition run (p : prog St A) (answer : Answers) (s : St) : Run :=
  exec p answer (fun _ s => s) 0 s.

End Semantics.

Global Arguments Status : clear implicits.
Global Arguments Quantum : clear implicits.
Global Arguments Run : clear implicits.

(** ** [BrowserManager] (src/browser.ts) *)

Record BrowserResponse : Type := {
  success : bool;
  data : JsValue;
  error : JsValue
}.

(** The private fields of the class. *)
Record BrowserManager : Type := {
  browser : option Browser;
  page : option Page;
  isInitializing : bool
}.

Definition set_browser (b : option Browser) (this : BrowserManager) : BrowserManager :=
  {| browser := b; page := page this; isInitializing := isInitializing this |}.

Definition set_page (p : option Page) (this : BrowserManager) : BrowserManager :=
  {| browser := browser this; page := p; isInitializing := isInitializing this |}.

Definition set_isInitializing (f : bool) (this : BrowserManager) : BrowserManager :=
  {| browser := browser this; page := page this; isInitializing := f |}.

(** [new BrowserManager()]. *)
Definition new_BrowserManager : BrowserManager :=
  {| browser := None; page := None; isInitializing := false |}.

(** [x === null], for a field that holds a handle or [null]. *)
Definition is_null {A : Type} (x : option A) : bool :=
  match x with None => true | Some _ => false end.

Definition null_deref (method : string) : Exn :=
  ErrorObject ("Cannot read properties of null (reading '" +:+ method +:+ "')").

(** [this.browser.method]: the field is read again at every use. *)
Definition this_browser (method : string) : prog BrowserManager Browser :=
  this ← get;
  match browser this with
  | Some b => mret b
  | None => throw (null_deref method)
  end.

(** [this.page.method]. *)
Definition this_page (method : string) : prog BrowserManager Page :=
  this ← get;
  match page this with
  | Some p => mret p
  | None => throw (null_deref method)
  end.

(** [command.name] as a statement that may throw. *)
Definition member {St : Type} (v : JsValue) (name : string) : prog St JsValue :=
  lift (js_get v name).

(** Lines 34-73, the [try] block of [initialize]. *)
Definition initialize_try : prog BrowserManager unit :=
  log info "Initializing browser";;
  b ← await Launch;
  modify (set_browser (Some b));;
  b ← this_browser "newPage";
  p ← await (NewPage b);
  modify (set_page (Some p));;
  p ← this_page "setViewport";
  await (SetViewport p 1280 720);;
  p ← this_page "on";
  call (On p "error");;
  p ← this_page "on";
  call (On p "pageerror");;
  p ← this_page "on";
  call (On p "console");;
  log info "Browser initialized successfully".

(** Lines 75-81, the [catch] block. *)
Definition initialize_catch (e : Exn) : prog BrowserManager unit :=
  log err "Failed to initialize browser";;
  modify (set_browser None);;
  modify (set_page None);;
  throw e.

(** Lines 82-84, the [finally] block. *)
Definition initialize_finally : prog BrowserManager unit :=
  modify (set_isInitializing false).

(** Lines 21-85. *)
Definition initialize : prog BrowserManager unit :=
  this ← get;
  if isInitializing this then
    log warn "Browser initialization already in progress";;
    mret tt
  else
    this ← get;
    if negb (is_null (browser this)) then
      log warn "Browser already initialized";;
      mret tt
    else
      modify (set_isInitializing true);;
      try_finally (try_catch initialize_try initialize_catch) initialize_finally.

(** Lines 91-101, the [try] block of [close]. *)
Definition close_try : prog BrowserManager unit :=
  this ← get;
  (if negb (is_null (page this)) then
     p ← this_page "close";
     await (PageClose p);;
     modify (set_page None)
   else mret tt);;
  this ← get;
  (if negb (is_null (browser this)) then
     b ← this_browser "close";
     await (BrowserClose b);;
     modify (set_browser None)
   else mret tt);;
  log info "Browser closed successfully".

(** Lines 103-108, the [catch] block. *)
Definition close_catch (e : Exn) : prog BrowserManager unit :=
  log err "Error closing browser";;
  throw e.

(** Lines 87-109. *)
Definition close : prog BrowserManager unit :=
  log info "Closing browser";;
  try_catch close_try close_catch.

(** [{ success: false, error: message }]. *)
Definition failure (message : string) : BrowserResponse :=
  {| success := false; data := JsUndefined; error := JsString message |}.

(** [{ success: true, data: d }], or [{ success: true }]. *)
Definition ok (d : JsValue) : BrowserResponse :=
  {| success := true; data := d; error := JsUndefined |}.

(** [{ success: true, data: { url: this.page.url() } }]. *)
Definition ok_with_url : prog BrowserManager BrowserResponse :=
  p ← this_page "url";
  u ← call (Url p);
  mret (ok (JsObject [("url", JsString u)])).

(** Lines 125-196, the [switch] inside the [try]. *)
Definition executeCommand_switch (command : JsValue) : prog BrowserManager BrowserResponse :=
  type ← member command "type";
  if js_is_string type "navigate" then
    p ← this_page "goto";
    d ← member command "data";
    url ← member d "url";
    await (Goto p url);;
    ok_with_url
  else if js_is_string type "click" then
    p ← this_page "click";
    d ← member command "data";
    selector ← member d "selector";
    await (Click p selector);;
    mret (ok JsUndefined)
  else if js_is_string type "type" then
    p ← this_page "type";
    d ← member command "data";
    selector ← member d "selector";
    d ← member command "data";
    text ← member d "text";
    await (TypeText p selector text);;
    mret (ok JsUndefined)
  else if js_is_string type "screenshot" then
    p ← this_page "screenshot";
    d ← member command "data";
    screenshot ← await (Screenshot p (js_or (js_get_optional d "fullPage") (JsBool false)));
    mret (ok (JsObject [("screenshot", JsString screenshot)]))
  else if js_is_string type "evaluate" then
    p ← this_page "evaluate";
    d ← member command "data";
    script ← member d "script";
    result ← await (Evaluate p script);
    mret (ok (JsObject [("result", result)]))
  else if js_is_string type "reload" then
    p ← this_page "reload";
    await (Reload p);;
    ok_with_url
  else if js_is_string type "back" then
    p ← this_page "goBack";
    await (GoBack p);;
    ok_with_url
  else if js_is_string type "forward" then
    p ← this_page "goForward";
    await (GoForward p);;
    ok_with_url
  else
    mret (failure ("Unknown command type: " +:+ js_to_string type)).

(** Lines 198-208, the [catch] block. *)
Definition executeCommand_catch (e : Exn) : prog BrowserManager BrowserResponse :=
  log err "Browser command failed";;
  mret (failure (error_text e)).

(** Lines 111-209.  The envelope is whatever value the caller passes:
    [req.body] or [message.data]. *)
Definition executeCommand (command : JsValue) : prog BrowserManager BrowserResponse :=
  this ← get;
  if is_null (page this) then
    mret (failure "Browser not initialized")
  else
    (* the arguments of logger.info: command.type, command.data *)
    member command "type";;
    member command "data";;
    log info "Executing browser command";;
    try_catch (executeCommand_switch command) executeCommand_catch.

(** Lines 211-230. *)
Definition getPageInfo : prog BrowserManager JsValue :=
  this ← get;
  if is_null (page this) then
    mret JsNull
  else
    try_catch
      (p ← this_page "title";
       tu ← await (TitleAndUrl p);
       mret (JsObject [("title", JsString (fst tu)); ("url", JsString (snd tu))]))
      (fun e =>
         log err "Failed to get page info";;
         mret JsNull).

(** Lines 232-234. *)
Definition isInitialized (this : BrowserManager) : bool :=
  negb (is_null (browser this)) && negb (is_null (page this)).

(** ** [WargServer] (src/server.ts), the WebSocket half *)

Inductive ReadyState : Type := CONNECTING | OPEN | CLOSING | CLOSED.

Global Instance ReadyState_eq_dec : EqDecision ReadyState.
Proof. solve_decision. Defined.

(** The fields of the class that the WebSocket handlers use, and the
    [readyState] each [WebSocket] object reports: that one belongs to the
    transport, the handlers only read it. *)
Record WargServer : Type := {
  browserManager : BrowserManager;
  connectedClients : gset Socket;
  readyState : Socket -> ReadyState
}.

Definition set_browserManager (m : BrowserManager) (this : WargServer) : WargServer :=
  {| browserManager := m; connectedClients := connectedClients this;
     readyState := readyState this |}.

Definition set_connectedClients (c : gset Socket) (this : WargServer) : WargServer :=
  {| browserManager := browserManager this; connectedClients := c;
     readyState := readyState this |}.

(** [this.browserManager.method()]. *)
Definition on_browserManager {A : Type} (p : prog BrowserManager A) : prog WargServer A :=
  zoom browserManager set_browserManager p.

(** [ws.send(JSON.stringify(message))]: the call is recorded with the
    message it was given. *)
Definition send (ws : Socket) (message : WSMessage) : prog WargServer unit :=
  emit (Sent ws message).

(** An object literal with [type], [data], [error] and [id]. *)
Definition msg (type : string) (d e id : JsValue) : WSMessage :=
  {| ws_type := JsString type; ws_data := d; ws_error := e; ws_id := id |}.


(** [connectedClients.size] as a number. *)
Definition js_size (c : gset Socket) : JsValue := JsNumber (pretty (size c)).

(** Lines 316-324.  A JavaScript [Set] is visited in insertion order;
    [connectedClients] is kept as a finite set without one, and nothing
    proved below depends on the order of the sends. *)
Definition broadcastToClients (message : WSMessage) (exclude : option Socket)
    : prog WargServer unit :=
  this ← get;
  foldr
    (fun client rest =>
       (if bool_decide (Some client ≠ exclude)
           && bool_decide (readyState this client = OPEN)
        then send client message
        else mret tt);;
       rest)
    (mret tt)
    (elements (connectedClients this)).

(** Lines 166-183, the body of the [connection] handler up to the
    registration of the socket's own handlers. *)
Definition on_connection (ws : Socket) : prog WargServer unit :=
  log info "WebSocket client connected";;
  modify (fun this => set_connectedClients ({[ws]} ∪ connectedClients this) this);;
  this ← get;
  send ws
    (msg "status"
       (JsObject [("initialized", JsBool (isInitialized (browserManager this)));
                  ("connectedClients", js_size (connectedClients this))])
       JsUndefined JsUndefined).

(** Lines 209-215, the [close] handler of a socket. *)
Definition on_close (ws : Socket) : prog WargServer unit :=
  modify (fun this => set_connectedClients (connectedClients this ∖ {[ws]}) this);;
  log info "WebSocket client disconnected".



(** ** Driver scenarios *)

Definition default_result (op : DriverOp) : result_ty op :=
  match op with
  | Launch => 1
  | NewPage _ => 2
  | Screenshot _ _ => "iVBORw0KGgo="
  | Evaluate _ _ => JsNumber "42"
  | Url _ => "https://example.com/"
  | TitleAndUrl _ => ("Example Domain", "https://example.com/")
  | _ => tt
  end.

(** Every driver call succeeds. *)
Definition all_succeed : Answers := fun _ op => inl (default_result op).

(** The [n]-th driver call fails with [e], the others answer as in [base]. *)
Definition failing_at (n : nat) (e : Exn) (base : Answers) : Answers :=
  fun i op => if Nat.eqb i n then inr e else base i op.

Definition timeout_error : Exn :=
  ErrorObject "Timed out after 30000 ms while waiting for the WS endpoint URL to appear in stdout!".

(** ** A program logic

    [wp rely p Q s]: from [s], whatever the driver answers and whatever
    the other tasks do to the state while [p] waits (as long as they stay
    within [rely]), [p] ends with events, a state and a result that
    satisfy [Q]. *)

Section Logic.

Context {St : Type} (rely : St -> St -> Prop).

Fixpoint wp {A : Type} (p : prog St A)
    (Q : list Event -> St -> A + Exn -> Prop) (s : St) : Prop :=
  match p with
  | Ret a => Q [] s (inl a)
  | Throw e => Q [] s (inr e)
  | Get k => wp (k s) Q s
  | Put s' k => wp k Q s'
  | Emit ev k => wp k (fun evs => Q (ev :: evs)) s
  | Call op k =>
      forall o : Outcome op,
        wp (k o) (fun evs => Q (Issued op :: Settled op (succeeded o) :: evs)) s
  | Await op k =>
      forall (o : Outcome op) (s' : St), rely s s' ->
        wp (k o) (fun evs => Q (Issued op :: Settled op (succeeded o) :: evs)) s'
  end.

End Logic.

(** ** Notions the statements use *)

(** No assumption on what the other tasks do. *)
Definition anything {St : Type} : St -> St -> Prop := fun _ _ => True.



(** No path of the program reaches an assignment to a field of [this]. *)
Fixpoint writes_nothing {St A : Type} (p : prog St A) : Prop :=
  match p with
  | Ret _ | Throw _ => True
  | Get k => forall s, writes_nothing (k s)
  | Put _ _ => False
  | Emit _ k => writes_nothing k
  | Call op k | Await op k => forall o, writes_nothing (k o)
  end.

(** ** The event loop

    Calls of the manager's methods arrive at any time; a call runs until
    its next [await], and a waiting call is resumed when the driver
    settles its promise.  One task runs at a time. *)

Inductive Method : Type :=
| m_initialize
| m_close
| m_executeCommand (command : JsValue)
| m_getPageInfo.

Definition returns (m : Method) : Type :=
  match m with
  | m_initialize | m_close => unit
  | m_executeCommand _ => BrowserResponse
  | m_getPageInfo => JsValue
  end.

Definition body (m : Method) : prog BrowserManager (returns m) :=
  match m with
  | m_initialize => initialize
  | m_close => close
  | m_executeCommand command => executeCommand command
  | m_getPageInfo => getPageInfo
  end.

(** A call that was made, and how it stands. *)
Record Task : Type := {
  method : Method;
  status : Status BrowserManager (returns method)
}.

Inductive Action : Type :=
| Invoke (m : Method)
| Resume (i : nat).

Record EventLoop : Type := {
  manager : BrowserManager;
  tasks : list Task;
  calls : nat;
  history : list Event
}.

Definition boot (m : BrowserManager) : EventLoop :=
  {| manager := m; tasks := []; calls := 0; history := [] |}.

(** One turn: a new call runs up to its first [await], or the [i]-th call
    is resumed with the outcome of the driver call it waits for (nothing
    happens when that call is not waiting). *)
Definition turn (answer : Answers) (a : Action) (σ : EventLoop) : EventLoop :=
  match a with
  | Invoke m =>
      let q := advance (body m) answer (calls σ) (manager σ) in
      {| manager := q_state q;
         tasks := tasks σ ++ [{| method := m; status := q_status q |}];
         calls := q_calls q;
         history := history σ ++ q_events q |}
  | Resume i =>
      match tasks σ !! i with
      | Some {| method := m; status := Blocked op k |} =>
          let o := answer (calls σ) op in
          let q := advance (k o) answer (S (calls σ)) (manager σ) in
          {| manager := q_state q;
             tasks := <[i := {| method := m; status := q_status q |}]> (tasks σ);
             calls := q_calls q;
             history := history σ ++ Settled op (succeeded o) :: q_events q |}
      | _ => σ
      end
  end.

Definition run_loop (answer : Answers) (actions : list Action) (σ : EventLoop)
    : EventLoop :=
  foldl (fun σ a => turn answer a σ) σ actions.

(** The call waits for [puppeteer.launch]. *)
Definition awaiting_launch (t : Task) : bool :=
  match status t with
  | Blocked op _ => is_launch op
  | Finished _ => false
  end.

Definition launches_in_flight (σ : EventLoop) : nat :=
  length (List.filter awaiting_launch (tasks σ)).

(** The call is an [initialize()] that has started and not yet settled. *)
Definition initializing (t : Task) : bool :=
  match method t, status t with
  | m_initialize, Blocked _ _ => true
  | _, _ => false
  end.

(** The program leaves [isInitializing] alone and never launches. *)
Fixpoint bystander {A : Type} (p : prog BrowserManager A) (m : BrowserManager) : Prop :=
  match p with
  | Ret _ | Throw _ => True
  | Get k => bystander (k m) m
  | Put m' k => isInitializing m' = isInitializing m /\ bystander k m'
  | Emit _ k => bystander k m
  | Call op k => forall o, bystander (k o) m
  | Await op k => is_launch op = false /\ forall o m', bystander (k o) m'
  end.

(** The program owns [isInitializing]: the flag is set whenever it waits
    and cleared when it ends, provided it finds the flag set whenever it
    is resumed. *)
Fixpoint holder {A : Type} (p : prog BrowserManager A) (m : BrowserManager) : Prop :=
  match p with
  | Ret _ | Throw _ => isInitializing m = false
  | Get k => holder (k m) m
  | Put m' k => holder k m'
  | Emit _ k => holder k m
  | Call op k => forall o, holder (k o) m
  | Await op k =>
      isInitializing m = true /\
      forall o m', isInitializing m' = true -> holder (k o) m'
  end.

Definition idle (t : Task) : Prop :=
  match status t with
  | Finished _ => True
  | Blocked op k =>
      method t <> m_initialize /\ is_launch op = false /\
      forall o m', bystander (k o) m'
  end.

Definition holding (t : Task) : Prop :=
  match status t with
  | Finished _ => False
  | Blocked op k => forall o m', isInitializing m' = true -> holder (k o) m'
  end.

(** At most one call holds the flag, and the flag is set exactly then. *)
Definition single_flight (σ : EventLoop) : Prop :=
  exists h : option nat,
    match h with
    | None => isInitializing (manager σ) = false
    | Some i =>
        isInitializing (manager σ) = true /\
        exists t, tasks σ !! i = Some t /\ holding t
    end /\
    forall j t, tasks σ !! j = Some t -> h <> Some j -> idle t.

(** ** States, outcomes and recipients *)

(** Both handles are [null]. *)
Definition uninitialized (this : BrowserManager) : Prop :=
  browser this = None /\ page this = None.

(** A driver call that failed. *)
Definition failed (ev : Event) : bool :=
  match ev with
  | Settled _ false => true
  | _ => false
  end.

(** A session with both handles. *)
Definition ready_manager : BrowserManager :=
  {| browser := Some 1; page := Some 2; isInitializing := false |}.

Definition is_sent (ev : Event) : bool :=
  match ev with
  | Sent _ _ => true
  | _ => false
  end.

(** The message was sent to [ws]. *)
Definition sent_to (ws : Socket) (ev : Event) : bool :=
  match ev with
  | Sent c _ => bool_decide (c = ws)
  | _ => false
  end.

(** Registered, not the excluded one, and open. *)
Definition live_other (this : WargServer) (exclude : option Socket) (c : Socket) : Prop :=
  Some c <> exclude /\ readyState this c = OPEN.

Global Instance live_other_dec this exclude c : Decision (live_other this exclude c).
Proof. unfold live_other. apply _. Defined.

(** The sockets a broadcast sends to, in the order of the iteration. *)
Definition recipients (this : WargServer) (exclude : option Socket) : list Socket :=
  filter (live_other this exclude) (elements (connectedClients this)).

(** Three observers; the third has gone away without being removed yet. *)
Definition three_observers : WargServer :=
  {| browserManager := ready_manager;
     connectedClients := {[1; 2; 3]};
     readyState := fun c => if Nat.eqb c 3 then CLOSED else OPEN |}.


(** ** Further notions the statements use *)

(** [v == null]: the value is [undefined] or [null]. *)
Definition nullish (v : JsValue) : bool :=
  match v with
  | JsUndefined | JsNull => true
  | _ => false
  end.

(** A driver call that creates or releases a browser or a page. *)
Definition is_lifecycle_op (op : DriverOp) : bool :=
  match op with
  | Launch | NewPage _ | PageClose _ | BrowserClose _ => true
  | _ => false
  end.

Definition is_lifecycle (ev : Event) : bool :=
  match ev with
  | Issued op | Settled op _ => is_lifecycle_op op
  | _ => false
  end.

(** A release call was issued. *)
Definition is_release (ev : Event) : bool :=
  match ev with
  | Issued (PageClose _) | Issued (BrowserClose _) => true
  | _ => false
  end.

(** The kinds whose branch reads a property of [command.data]. *)
Definition payload_kinds : list string := ["navigate"; "click"; "type"; "evaluate"].

(** The call has settled. *)
Definition settled (t : Task) : bool :=
  match status t with
  | Finished _ => true
  | Blocked _ _ => false
  end.

(** [executeCommand] and [getPageInfo]. *)
Definition reads_only (m : Method) : bool :=
  match m with
  | m_executeCommand _ | m_getPageInfo => true
  | m_initialize | m_close => false
  end.

(** A turn of the event loop given to a call of [executeCommand] or
    [getPageInfo]: the call starts, or it is resumed. *)
Definition reader_turn (σ : EventLoop) (a : Action) : Prop :=
  match a with
  | Invoke m => reads_only m = true
  | Resume i => exists t, tasks σ !! i = Some t /\ reads_only (method t) = true
  end.

(** What is left of a call of [executeCommand] or [getPageInfo] assigns
    to no field. *)
Definition quiet_task (t : Task) : Prop :=
  reads_only (method t) = true ->
  match status t with
  | Finished _ => True
  | Blocked op k => forall o, writes_nothing (k o)
  end.




(** ** The HTTP routes of [WargServer] (src/server.ts, lines 46-163) *)

(** What a handler has written to its [res] object: the status code
    (200 unless [res.status] was called) and the JSON body. *)
Record HttpResponse : Type := {
  http_status : nat;
  http_body : JsValue
}.

(** A route handler runs on the server and on the [res] object of its
    request; [res] is kept as the list of the responses written to it. *)
Record Exchange : Type := {
  server : WargServer;
  res : list HttpResponse
}.

Definition set_server (s : WargServer) (x : Exchange) : Exchange :=
  {| server := s; res := res x |}.

(** A method of the server, called from a route handler. *)
Definition on_server {A : Type} (p : prog WargServer A) : prog Exchange A :=
  zoom server set_server p.

(** [res.status(code).json(body)]; [res.json(body)] is [res_json 200 body]. *)
Definition res_json (code : nat) (body : JsValue) : prog Exchange unit :=
  modify (fun x => {| server := server x;
                      res := res x ++ [{| http_status := code; http_body := body |}] |}).

(** [{ success: true, message }]. *)
Definition success_body (message : string) : JsValue :=
  JsObject [("success", JsBool true); ("message", JsString message)].

(** [{ success: false, error: error instanceof Error ? error.message : String(error) }]. *)
Definition failure_body (e : Exn) : JsValue :=
  JsObject [("success", JsBool false); ("error", JsString (error_text e))].

(** A broadcast message: [{ type }] or [{ type, data }]. *)
Definition notice (type : string) (d : JsValue) : WSMessage :=
  msg type d JsUndefined JsUndefined.



(** Lines 91-107, [POST /api/browser/restart]. *)
Definition api_browser_restart : prog Exchange unit :=
  try_catch
    (on_server (on_browserManager close);;
     on_server (on_browserManager initialize);;
     log info "Browser restarted via API";;
     res_json 200 (success_body "Browser restarted");;
     on_server (broadcastToClients (notice "browser_restarted" JsUndefined) None))
    (fun e =>
       log err "Failed to restart browser via API";;
       res_json 500 (failure_body e)).



(** While a handler waits, the other tasks do not write to its [res]. *)
Definition own_response (x x' : Exchange) : Prop := res x' = res x.

(** A request that has written nothing yet. *)
Definition request (s : WargServer) : Exchange := {| server := s; res := [] |}.

(** Every registered, open socket was sent [note] once, and nothing else
    was sent to anyone. *)
Definition delivered (this : WargServer) (note : WSMessage) (evs : list Event) : Prop :=
  forall c : Socket,
    List.filter (sent_to c) evs =
      if bool_decide (c ∈ connectedClients this /\ readyState this c = OPEN)
      then [Sent c note] else [].

(** [puppeteer.launch] was called. *)
Definition is_launch_call (ev : Event) : bool :=
  match ev with
  | Issued op => is_launch op
  | _ => false
  end.

(** The response with status [code] and body [body] was added to [res]. *)
Definition responded (x x' : Exchange) (code : nat) (body : JsValue) : Prop :=
  res x' = res x ++ [{| http_status := code; http_body := body |}].

(** * Proofs *)

(** ** Rules of the logic *)

Section LogicRules.

Context {St : Type} (rely : St -> St -> Prop).

Lemma wp_mono {A : Type} (p : prog St A) :
  forall (Q Q' : list Event -> St -> A + Exn -> Prop) (s : St),
    (forall evs s' r, Q evs s' r -> Q' evs s' r) ->
    wp rely p Q s -> wp rely p Q' s.
Proof.
  induction p as [a|e|k IH|s0 k IH|ev k IH|op k IH|op k IH];
    intros Q Q' s HQ Hp; simpl in *.
  - auto.
  - auto.
  - eapply IH; eauto.
  - eapply IH; eauto.
  - eapply IH; [|apply Hp]. simpl. auto.
  - intros o. eapply IH; [|apply Hp]. simpl. auto.
  - intros o s' Hr. eapply IH; [|apply Hp, Hr]. simpl. auto.
Qed.

(** Sequencing. *)
Lemma wp_bind {A B : Type} (p : prog St A) (f : A -> prog St B) :
  forall (Q : list Event -> St -> B + Exn -> Prop) (s : St),
    wp rely p (fun evs s' r =>
            match r with
            | inl a => wp rely (f a) (fun evs' => Q (evs ++ evs')) s'
            | inr e => Q evs s' (inr e)
            end) s ->
    wp rely (bind p f) Q s.
Proof.
  induction p as [a|e|k IH|s0 k IH|ev k IH|op k IH|op k IH];
    intros Q s Hp; simpl in *.
  - exact Hp.
  - exact Hp.
  - apply IH, Hp.
  - apply IH, Hp.
  - apply IH, Hp.
  - intros o. apply IH, Hp.
  - intros o s' Hr. apply IH, Hp, Hr.
Qed.

(** [try]/[catch]. *)
Lemma wp_try_catch {A : Type} (p : prog St A) (handler : Exn -> prog St A) :
  forall (Q : list Event -> St -> A + Exn -> Prop) (s : St),
    wp rely p (fun evs s' r =>
            match r with
            | inl a => Q evs s' (inl a)
            | inr e => wp rely (handler e) (fun evs' => Q (evs ++ evs')) s'
            end) s ->
    wp rely (try_catch p handler) Q s.
Proof.
  induction p as [a|e|k IH|s0 k IH|ev k IH|op k IH|op k IH];
    intros Q s Hp; simpl in *.
  - exact Hp.
  - exact Hp.
  - apply IH, Hp.
  - apply IH, Hp.
  - apply IH, Hp.
  - intros o. apply IH, Hp.
  - intros o s' Hr. apply IH, Hp, Hr.
Qed.

(** The logic is sound for [exec]. *)
Lemma wp_exec {A : Type} (p : prog St A) (answer : Answers)
    (meanwhile : nat -> St -> St) :
  (forall i s, rely s (meanwhile i s)) ->
  forall (Q : list Event -> St -> A + Exn -> Prop) (n : nat) (s : St),
    wp rely p Q s ->
    let r := exec p answer meanwhile n s in
    Q (events r) (final r) (result r).
Proof.
  intros Hrely.
  induction p as [a|e|k IH|s0 k IH|ev k IH|op k IH|op k IH];
    intros Q n s Hp; cbn in *.
  - exact Hp.
  - exact Hp.
  - apply IH, Hp.
  - apply IH, Hp.
  - exact (IH (fun evs => Q (ev :: evs)) n s Hp).
  - exact (IH _ (fun evs => Q (Issued op :: Settled op _ :: evs)) _ s (Hp _)).
  - exact (IH _ (fun evs => Q (Issued op :: Settled op _ :: evs)) _ _
              (Hp _ _ (Hrely n s))).
Qed.

End LogicRules.

(** A method of a field, in the logic. *)
Lemma wp_zoom {St M A : Type} (proj : St -> M) (upd : M -> St -> St)
    (relyS : St -> St -> Prop) (relyM : M -> M -> Prop) (p : prog M A) :
  (forall m s, proj (upd m s) = m) ->
  (forall s s', relyS s s' -> relyM (proj s) (proj s')) ->
  forall (Q : list Event -> M -> A + Exn -> Prop) (s : St),
    wp relyM p Q (proj s) ->
    wp relyS (zoom proj upd p) (fun evs s' r => Q evs (proj s') r) s.
Proof.
  intros Hlens Hrely.
  induction p as [a|e|k IH|s0 k IH|ev k IH|op k IH|op k IH];
    intros Q s Hp; simpl in *.
  - exact Hp.
  - exact Hp.
  - apply IH, Hp.
  - apply IH. rewrite Hlens. exact Hp.
  - apply (IH (fun evs => Q (ev :: evs))), Hp.
  - intros o. apply (IH o (fun evs => Q (Issued op :: Settled op _ :: evs))), Hp.
  - intros o s' Hr.
    apply (IH o (fun evs => Q (Issued op :: Settled op _ :: evs))), Hp, Hrely, Hr.
Qed.

(** ** The two ways of running a program agree *)

(** A whole call is its first turn, then the rest of the call from the
    state the other tasks have left. *)
Lemma exec_advance {St A : Type} (p : prog St A) (answer : Answers)
    (meanwhile : nat -> St -> St) :
  forall (n : nat) (s : St),
    exec p answer meanwhile n s =
      let q := advance p answer n s in
      match q_status q with
      | Finished r => {| final := q_state q; events := q_events q; result := r |}
      | Blocked op k =>
          let o := answer (q_calls q) op in
          let r := exec (k o) answer meanwhile (S (q_calls q))
                     (meanwhile (q_calls q) (q_state q)) in
          {| final := final r;
             events := q_events q ++ Settled op (succeeded o) :: events r;
             result := result r |}
      end.
Proof.
  induction p as [a|e|k IH|s0 k IH|ev k IH|op k IH|op k IH];
    intros n s; cbn; try reflexivity; try apply IH.
  - rewrite IH. cbn. destruct (q_status (advance k answer n s)); reflexivity.
  - rewrite IH. cbn.
    destruct (q_status (advance (k (answer n op)) answer (S n) s)); reflexivity.
Qed.

(** ** Properties of [BrowserManager] *)

Lemma executeCommand_without_page (command : JsValue) (this : BrowserManager)
    (answer : Answers) (meanwhile : nat -> BrowserManager -> BrowserManager) (n : nat) :
  page this = None ->
  exec (executeCommand command) answer meanwhile n this =
    {| final := this; events := [];
       result := inl (failure "Browser not initialized") |}.
Proof. destruct this as [b [p|] f]; intros Hp; [discriminate|reflexivity]. Qed.


(** *** Programs that write no field *)

Lemma writes_nothing_run {St A : Type} (p : prog St A) (answer : Answers) :
  writes_nothing p ->
  forall (n : nat) (s : St), final (exec p answer (fun _ s => s) n s) = s.
Proof.
  induction p as [a|e|k IH|s0 k IH|ev k IH|op k IH|op k IH];
    simpl; intros Hp n s; auto; contradiction.
Qed.

(** Symbolic execution: split on whatever the program is waiting for. *)
Ltac symbolic :=
  repeat (simpl; intros;
          try first
            [ match goal with
              | |- context [lift ?r] => destruct r
              | |- context [if ?b then _ else _] => destruct b
              | |- context [match ?x with _ => _ end] => destruct x
              end ]);
  auto.

Lemma executeCommand_writes_nothing (command : JsValue) :
  writes_nothing (executeCommand command).
Proof.
  unfold executeCommand, executeCommand_switch, executeCommand_catch,
    ok_with_url, this_page, member.
  symbolic.
Qed.

Lemma getPageInfo_writes_nothing : writes_nothing getPageInfo.
Proof. unfold getPageInfo, this_page. symbolic. Qed.

(** *** The flag is a lock *)

Lemma bystander_advance {A : Type} (p : prog BrowserManager A) (answer : Answers) :
  forall (n : nat) (m : BrowserManager),
    bystander p m ->
    isInitializing (q_state (advance p answer n m)) = isInitializing m /\
    match q_status (advance p answer n m) with
    | Finished _ => True
    | Blocked op k => is_launch op = false /\ forall o m', bystander (k o) m'
    end.
Proof.
  induction p as [a|e|k IH|s0 k IH|ev k IH|op k IH|op k IH];
    simpl; intros n m Hp; auto.
  destruct Hp as [Hflag Hk]. rewrite <- Hflag. auto.
Qed.

Lemma holder_advance {A : Type} (p : prog BrowserManager A) (answer : Answers) :
  forall (n : nat) (m : BrowserManager),
    holder p m ->
    match q_status (advance p answer n m) with
    | Finished _ => isInitializing (q_state (advance p answer n m)) = false
    | Blocked op k =>
        isInitializing (q_state (advance p answer n m)) = true /\
        forall o m', isInitializing m' = true -> holder (k o) m'
    end.
Proof.
  induction p as [a|e|k IH|s0 k IH|ev k IH|op k IH|op k IH];
    simpl; intros n m Hp; auto; apply IH; auto.
Qed.

Ltac symbolic_conj :=
  repeat (simpl; intros;
          try first
            [ match goal with
              | |- _ /\ _ => split
              | |- context [lift ?r] => destruct r
              | |- context [if ?b then _ else _] => destruct b
              | |- context [match ?x with _ => _ end] => destruct x
              end ]);
  auto.

Lemma close_bystander (m : BrowserManager) : bystander close m.
Proof.
  unfold close, close_try, close_catch, this_page, this_browser. symbolic_conj.
Qed.

Lemma executeCommand_bystander (command : JsValue) (m : BrowserManager) :
  bystander (executeCommand command) m.
Proof.
  unfold executeCommand, executeCommand_switch, executeCommand_catch,
    ok_with_url, this_page, member.
  symbolic_conj.
Qed.

Lemma getPageInfo_bystander (m : BrowserManager) : bystander getPageInfo m.
Proof. unfold getPageInfo, this_page. symbolic_conj. Qed.

Lemma initialize_in_progress (answer : Answers) (n : nat) (m : BrowserManager) :
  isInitializing m = true ->
  advance initialize answer n m =
    {| q_state := m;
       q_events := [Logged warn "Browser initialization already in progress"];
       q_calls := n; q_status := Finished (inl tt) |}.
Proof. destruct m as [b p f]; simpl; intros H; subst; reflexivity. Qed.

Lemma initialize_already (answer : Answers) (n : nat) (m : BrowserManager) :
  isInitializing m = false -> browser m <> None ->
  advance initialize answer n m =
    {| q_state := m;
       q_events := [Logged warn "Browser already initialized"];
       q_calls := n; q_status := Finished (inl tt) |}.
Proof.
  destruct m as [[b|] p f]; simpl; intros H Hb; subst;
    [reflexivity|contradiction].
Qed.

Lemma initialize_holder (m : BrowserManager) :
  isInitializing m = false -> browser m = None -> holder initialize m.
Proof.
  destruct m as [b p f]; simpl; intros H Hb; subst.
  unfold initialize, initialize_try, initialize_catch, initialize_finally,
    this_page, this_browser.
  symbolic_conj.
Qed.

(** How a new call stands towards the flag. *)
Lemma body_cases (m : Method) (s : BrowserManager) :
  (m <> m_initialize /\ bystander (body m) s) \/
  (m = m_initialize /\ (isInitializing s = true \/ browser s <> None)) \/
  (m = m_initialize /\ isInitializing s = false /\ holder (body m) s).
Proof.
  destruct m; cbn [body].
  - destruct (isInitializing s) eqn:Hf.
    { right; left. split; [reflexivity|left; reflexivity]. }
    destruct (browser s) eqn:Hb.
    { right; left. split; [reflexivity|right; discriminate]. }
    right; right. split; [reflexivity|]. split; [reflexivity|].
    apply initialize_holder; assumption.
  - left. split; [discriminate|apply close_bystander].
  - left. split; [discriminate|apply executeCommand_bystander].
  - left. split; [discriminate|apply getPageInfo_bystander].
Qed.

Lemma initialize_returns_at_once (answer : Answers) (n : nat) (s : BrowserManager) :
  isInitializing s = true \/ browser s <> None ->
  exists note,
    advance initialize answer n s =
      {| q_state := s; q_events := [Logged warn note];
         q_calls := n; q_status := Finished (inl tt) |}.
Proof.
  intros H. destruct (isInitializing s) eqn:Hf.
  - eexists. apply initialize_in_progress, Hf.
  - destruct H as [H|H]; [discriminate|].
    eexists. apply initialize_already; assumption.
Qed.

Lemma single_flight_boot (m : BrowserManager) :
  isInitializing m = false -> single_flight (boot m).
Proof.
  intros H. exists None. split; [exact H|].
  intros j t Hj. destruct j; discriminate.
Qed.

Lemma single_flight_invoke (answer : Answers) (m : Method) (σ : EventLoop) :
  single_flight σ -> single_flight (turn answer (Invoke m) σ).
Proof.
  intros (h & Hh & Hidle). unfold single_flight. cbn [turn manager tasks].
  pose proof (body_cases m (manager σ)) as Hcases.
  pose proof (bystander_advance (body m) answer (calls σ) (manager σ)) as Hby.
  pose proof (holder_advance (body m) answer (calls σ) (manager σ)) as Hho.
  assert (Hret : m = m_initialize ->
            isInitializing (manager σ) = true \/ browser (manager σ) <> None ->
            q_state (advance (body m) answer (calls σ) (manager σ)) = manager σ /\
            match q_status (advance (body m) answer (calls σ) (manager σ)) with
            | Finished _ => True
            | Blocked _ _ => False
            end).
  { intros -> H.
    destruct (initialize_returns_at_once answer (calls σ) (manager σ) H) as [note Hq].
    change (advance (body m_initialize) answer (calls σ) (manager σ))
      with (advance initialize answer (calls σ) (manager σ)).
    rewrite Hq.
    split; [reflexivity|exact I]. }
  generalize dependent (advance (body m) answer (calls σ) (manager σ)).
  intros q Hby Hho Hret.
  assert (Hold : forall j t,
            (tasks σ ++ [{| method := m; status := q_status q |}]) !! j = Some t ->
            j <> length (tasks σ) -> tasks σ !! j = Some t).
  { intros j t Hj Hne. apply lookup_app_Some in Hj as [Hj|[Hge Hj]]; [exact Hj|].
    apply list_lookup_singleton_Some in Hj as [Hj _]. lia. }
  assert (Hnew : forall j t,
            (tasks σ ++ [{| method := m; status := q_status q |}]) !! j = Some t ->
            j = length (tasks σ) -> t = {| method := m; status := q_status q |}).
  { intros j t Hj ->. rewrite lookup_app_r, Nat.sub_diag in Hj by lia.
    simpl in Hj. congruence. }
  assert (Hkeep : forall i t, tasks σ !! i = Some t ->
            (tasks σ ++ [{| method := m; status := q_status q |}]) !! i = Some t).
  { intros i t Hi. apply lookup_app_l_Some, Hi. }
  destruct Hcases as [[Hm Hb]|[[Hm Hr]|(Hm & Hf & Hb)]].
  - (* a bystander *)
    destruct (Hby Hb) as [Hflag Hst].
    exists h. split.
    + destruct h as [i|]; rewrite Hflag; [|exact Hh].
      destruct Hh as (Hf & t & Hi & Ht). eauto.
    + intros j t Hj Hne. destruct (decide (j = length (tasks σ))) as [Hjl|Hjl].
      * rewrite (Hnew j t Hj Hjl). unfold idle. cbn [status method].
        destruct (q_status q); [exact I|]. tauto.
      * eapply Hidle; eauto.
  - (* initialize, turned away *)
    destruct (Hret Hm Hr) as [Hs Hst]. rewrite Hs.
    exists h. split.
    + destruct h as [i|]; [|exact Hh].
      destruct Hh as (Hf & t & Hi & Ht). eauto.
    + intros j t Hj Hne. destruct (decide (j = length (tasks σ))) as [Hjl|Hjl].
      * rewrite (Hnew j t Hj Hjl). unfold idle. cbn [status method].
        destruct (q_status q); [exact I|contradiction].
      * eapply Hidle; eauto.
  - (* initialize, taking the flag *)
    destruct h as [i|]; [destruct Hh as [Hh _]; congruence|].
    specialize (Hho Hb).
    destruct (q_status q) as [r|op k] eqn:Hq.
    + exists None. split; [exact Hho|].
      intros j t Hj _. destruct (decide (j = length (tasks σ))) as [Hjl|Hjl].
      * rewrite (Hnew j t Hj Hjl). unfold idle. cbn [status method]. exact I.
      * eapply Hidle; eauto; discriminate.
    + destruct Hho as [Hflag Hk].
      exists (Some (length (tasks σ))). split.
      * split; [exact Hflag|]. eexists. split.
        -- rewrite lookup_app_r, Nat.sub_diag by lia. reflexivity.
        -- exact Hk.
      * intros j t Hj Hne. eapply Hidle; [|discriminate].
        apply Hold; [exact Hj|congruence].
Qed.

Lemma single_flight_resume (answer : Answers) (i : nat) (σ : EventLoop) :
  single_flight σ -> single_flight (turn answer (Resume i) σ).
Proof.
  intros Hσ. cbn [turn].
  destruct (tasks σ !! i) as [[m [r|op k]]|] eqn:Hi; try exact Hσ.
  destruct Hσ as (h & Hh & Hidle). unfold single_flight. cbn [manager tasks].
  pose proof (lookup_lt_Some _ _ _ Hi) as Hlen.
  pose proof (bystander_advance (k (answer (calls σ) op)) answer
                (S (calls σ)) (manager σ)) as Hby.
  pose proof (holder_advance (k (answer (calls σ) op)) answer
                (S (calls σ)) (manager σ)) as Hho.
  generalize dependent (advance (k (answer (calls σ) op)) answer
                          (S (calls σ)) (manager σ)).
  intros q Hby Hho.
  destruct (decide (h = Some i)) as [->|Hne].
  - (* the holder of the flag goes on *)
    destruct Hh as (Hf & t & Ht & Hholding).
    rewrite Hi in Ht. injection Ht as <-.
    unfold holding in Hholding. cbn [status] in Hholding.
    specialize (Hho (Hholding _ _ Hf)).
    destruct (q_status q) as [r|op' k'] eqn:Hq.
    + exists None. split; [exact Hho|].
      intros j t Hj _. destruct (decide (j = i)) as [->|Hji].
      * rewrite list_lookup_insert_eq in Hj by exact Hlen.
        injection Hj as <-. exact I.
      * rewrite list_lookup_insert_ne in Hj by congruence.
        eapply Hidle; eauto. congruence.
    + destruct Hho as [Hflag Hk].
      exists (Some i). split.
      * split; [exact Hflag|]. eexists. split.
        -- apply list_lookup_insert_eq, Hlen.
        -- exact Hk.
      * intros j t Hj Hji.
        rewrite list_lookup_insert_ne in Hj by congruence.
        eapply Hidle; eauto.
  - (* a bystander goes on *)
    pose proof (Hidle i _ Hi Hne) as Hidle_i.
    unfold idle in Hidle_i. cbn [status method] in Hidle_i.
    destruct Hidle_i as (Hm & _ & Hk).
    destruct (Hby (Hk _ _)) as [Hflag Hst].
    exists h. split.
    + destruct h as [i'|]; rewrite Hflag; [|exact Hh].
      destruct Hh as (Hf & t & Ht & Hholding).
      split; [exact Hf|]. exists t. split; [|exact Hholding].
      rewrite list_lookup_insert_ne by congruence. exact Ht.
    + intros j t Hj Hjh. destruct (decide (j = i)) as [->|Hji].
      * rewrite list_lookup_insert_eq in Hj by exact Hlen.
        injection Hj as <-. unfold idle. cbn [status method].
        destruct (q_status q); [exact I|]. tauto.
      * rewrite list_lookup_insert_ne in Hj by congruence.
        eapply Hidle; eauto.
Qed.

Lemma single_flight_run_loop (answer : Answers) (actions : list Action) :
  forall σ, single_flight σ -> single_flight (run_loop answer actions σ).
Proof.
  induction actions as [|a actions IH]; intros σ Hσ; [exact Hσ|].
  simpl. apply IH. destruct a.
  - apply single_flight_invoke, Hσ.
  - apply single_flight_resume, Hσ.
Qed.

Lemma filter_none_but (f : Task -> bool) (l : list Task) :
  (forall j t, l !! j = Some t -> f t = false) -> List.filter f l = [].
Proof.
  induction l as [|t l IH]; intros H; [reflexivity|].
  simpl. rewrite (H 0 t eq_refl). apply IH.
  intros j t' Hj. apply (H (S j) t' Hj).
Qed.

Lemma filter_at_most_one (f : Task -> bool) (l : list Task) :
  forall h : option nat,
    (forall j t, l !! j = Some t -> h <> Some j -> f t = false) ->
    length (List.filter f l) <= 1.
Proof.
  induction l as [|t l IH]; intros h H; simpl; [lia|].
  destruct (f t) eqn:Hft.
  - rewrite filter_none_but; [simpl; lia|].
    intros j t' Hj. apply (H (S j) t' Hj).
    intros ->. specialize (H 0 t eq_refl). rewrite Hft in H.
    assert (Some (S j) <> Some 0) as Hne by congruence.
    specialize (H Hne). discriminate.
  - apply (IH (match h with Some (S i) => Some i | _ => None end)).
    intros j t' Hj Hne. apply (H (S j) t' Hj).
    intros ->. apply Hne. reflexivity.
Qed.

Lemma idle_not_awaiting_launch (t : Task) : idle t -> awaiting_launch t = false.
Proof.
  unfold idle, awaiting_launch. destruct (status t); [reflexivity|]. tauto.
Qed.

Lemma idle_not_initializing (t : Task) : idle t -> initializing t = false.
Proof.
  unfold idle, initializing. destruct t as [m [r|op k]]; cbn [status method].
  - destruct m; reflexivity.
  - intros [Hm _]. destruct m; try reflexivity. contradiction.
Qed.

Lemma single_flight_launches (σ : EventLoop) :
  single_flight σ -> launches_in_flight σ <= 1.
Proof.
  intros (h & _ & Hidle). apply (filter_at_most_one _ _ h).
  intros j t Hj Hne. apply idle_not_awaiting_launch. eapply Hidle; eauto.
Qed.

Lemma single_flight_flag (σ : EventLoop) (t : Task) :
  single_flight σ -> t ∈ tasks σ -> initializing t = true ->
  isInitializing (manager σ) = true.
Proof.
  intros (h & Hh & Hidle) Ht Hinit.
  apply list_elem_of_lookup in Ht as [j Hj].
  destruct (decide (h = Some j)) as [->|Hne].
  - apply Hh.
  - rewrite (idle_not_initializing t) in Hinit by eauto. discriminate.
Qed.

(** ** The claims about [BrowserManager] *)



(** C3: called without a live page handle, [executeCommand] returns the
    failed response "Browser not initialized" in its first turn, whatever
    the envelope; it calls no driver operation (it does nothing that can
    be observed at all) and leaves the manager as it found it. *)
Theorem executeCommand_not_ready (command : JsValue) (this : BrowserManager)
    (answer : Answers) (meanwhile : nat -> BrowserManager -> BrowserManager) (n : nat) :
  page this = None ->
  exec (executeCommand command) answer meanwhile n this =
    {| final := this; events := [];
       result := inl {| success := false; data := JsUndefined;
                        error := JsString "Browser not initialized" |} |} /\
  advance (executeCommand command) answer n this =
    {| q_state := this; q_events := []; q_calls := n;
       q_status := Finished (inl (failure "Browser not initialized")) |}.
Proof.
  intros Hp. split; [apply executeCommand_without_page, Hp|].
  destruct this as [b [p|] f]; [discriminate|reflexivity].
Qed.

Lemma executeCommand_not_ready_witness :
  page new_BrowserManager = None /\
  exec (executeCommand (JsObject [("type", JsString "reload")])) all_succeed
    (fun _ s => s) 0 new_BrowserManager =
    {| final := new_BrowserManager; events := [];
       result := inl (failure "Browser not initialized") |}.
Proof.
  split; [reflexivity|].
  exact (proj1 (executeCommand_not_ready
                  (JsObject [("type", JsString "reload")]) new_BrowserManager
                  all_succeed (fun _ s => s) 0 eq_refl)).
Defined.

(** C4: when the launch inside [initialize()] is rejected (a time-out is
    a rejection), the call ends with both handles [null] and the flag
    cleared, whatever other tasks did while it waited; the rejection is
    rethrown to the caller; and the next [initialize()] issues a launch
    again. *)
Theorem initialize_launch_failure (answer : Answers)
    (meanwhile : nat -> BrowserManager -> BrowserManager) (n : nat)
    (this : BrowserManager) (e : Exn) :
  isInitializing this = false ->
  browser this = None ->
  answer n Launch = inr e ->
  let r := exec initialize answer meanwhile n this in
  final r = {| browser := None; page := None; isInitializing := false |} /\
  result r = inr e /\
  events r = [Logged info "Initializing browser"; Issued Launch;
              Settled Launch false; Logged err "Failed to initialize browser"] /\
  forall answer' n',
    q_events (advance initialize answer' n' (final r))
    = [Logged info "Initializing browser"; Issued Launch].
Proof.
  destruct this as [b p f]; cbn [isInitializing browser]; intros -> -> He.
  cbn. rewrite He. cbn. repeat split; reflexivity.
Qed.

Lemma initialize_launch_failure_witness :
  let r := run initialize (failing_at 0 timeout_error all_succeed) new_BrowserManager in
  final r = new_BrowserManager /\ result r = inr timeout_error.
Proof.
  pose proof (initialize_launch_failure
                (failing_at 0 timeout_error all_succeed) (fun _ s => s) 0
                new_BrowserManager timeout_error eq_refl eq_refl eq_refl) as H.
  split; [exact (proj1 H)|exact (proj1 (proj2 H))].
Defined.

(** C5: with both handles [null], [close()] succeeds, changes nothing and
    calls no driver operation: all it does is write its two log lines. *)
Theorem close_idempotent (answer : Answers)
    (meanwhile : nat -> BrowserManager -> BrowserManager) (n : nat)
    (this : BrowserManager) :
  uninitialized this ->
  exec close answer meanwhile n this =
    {| final := this;
       events := [Logged info "Closing browser";
                  Logged info "Browser closed successfully"];
       result := inl tt |}.
Proof.
  destruct this as [b p f]. intros [Hb Hp]. cbn in Hb, Hp. subst. reflexivity.
Qed.

Lemma close_idempotent_witness :
  uninitialized new_BrowserManager /\
  exec close all_succeed (fun _ s => s) 0 new_BrowserManager =
    {| final := new_BrowserManager;
       events := [Logged info "Closing browser";
                  Logged info "Browser closed successfully"];
       result := inl tt |}.
Proof.
  split; [split; reflexivity|].
  exact (close_idempotent all_succeed (fun _ s => s) 0 new_BrowserManager
           (conj eq_refl eq_refl)).
Defined.



(** C7: from a state with both handles, [close()] issues [page.close()]
    first and issues [browser.close()] only after [page.close()] has
    settled, and then only if it succeeded. *)
Theorem close_page_before_browser (answer : Answers) (this : BrowserManager)
    (b : Browser) (p : Page) :
  browser this = Some b ->
  page this = Some p ->
  List.filter is_driver_event (events (run close answer this)) =
    match answer 0 (PageClose p) with
    | inl _ =>
        [Issued (PageClose p); Settled (PageClose p) true;
         Issued (BrowserClose b);
         Settled (BrowserClose b) (succeeded (answer 1 (BrowserClose b)))]
    | inr _ => [Issued (PageClose p); Settled (PageClose p) false]
    end.
Proof.
  destruct this as [b' p' f]; cbn [browser page]; intros -> ->.
  unfold run. cbn.
  destruct (answer 0 (PageClose p)) as [[]|e]; cbn; [|reflexivity].
  destruct (answer 1 (BrowserClose b)) as [[]|e]; reflexivity.
Qed.

Lemma close_page_before_browser_witness :
  List.filter is_driver_event (events (run close all_succeed ready_manager)) =
    [Issued (PageClose 2); Settled (PageClose 2) true;
     Issued (BrowserClose 1); Settled (BrowserClose 1) true].
Proof.
  exact (close_page_before_browser all_succeed ready_manager 1 2 eq_refl eq_refl).
Defined.

(** C10: [executeCommand] and [getPageInfo] assign to no field: whatever
    the envelope, the starting state and the driver's answers, the
    manager after the call is the manager before it. *)
Theorem executeCommand_getPageInfo_frame (command : JsValue) (answer : Answers)
    (this : BrowserManager) :
  let after_command := final (run (executeCommand command) answer this) in
  let after_info := final (run getPageInfo answer this) in
  (browser after_command = browser this /\ page after_command = page this /\
   isInitializing after_command = isInitializing this) /\
  (browser after_info = browser this /\ page after_info = page this /\
   isInitializing after_info = isInitializing this).
Proof.
  cbv zeta. unfold run.
  rewrite (writes_nothing_run _ answer (executeCommand_writes_nothing command)).
  rewrite (writes_nothing_run _ answer getPageInfo_writes_nothing).
  repeat split; reflexivity.
Qed.

(** C2: however calls of the manager's methods and resumptions of waiting
    calls follow one another from a manager whose flag is clear, at most
    one call waits for [puppeteer.launch] at any time.  While a call of
    [initialize()] is in progress a further [initialize()] returns in its
    own turn, with a warning, without calling the driver and without
    touching the manager; and so does an [initialize()] on a session that
    is already initialized. *)
Theorem initialize_single_flight (answer : Answers) (actions : list Action)
    (this : BrowserManager) :
  isInitializing this = false ->
  let σ := run_loop answer actions (boot this) in
  let returned note :=
    {| manager := manager σ;
       tasks := tasks σ ++ [{| method := m_initialize; status := Finished (inl tt) |}];
       calls := calls σ;
       history := history σ ++ [Logged warn note] |} in
  launches_in_flight σ <= 1 /\
  (forall t, t ∈ tasks σ -> initializing t = true ->
     turn answer (Invoke m_initialize) σ
     = returned "Browser initialization already in progress") /\
  (isInitialized (manager σ) = true ->
     turn answer (Invoke m_initialize) σ
     = returned (if isInitializing (manager σ)
                 then "Browser initialization already in progress"
                 else "Browser already initialized")).
Proof.
  intros Hflag σ returned.
  assert (single_flight σ) as Hσ.
  { apply single_flight_run_loop, single_flight_boot, Hflag. }
  split; [apply single_flight_launches, Hσ|]. split.
  - intros t Ht Hinit. unfold returned. cbn [turn body].
    rewrite initialize_in_progress by (eapply single_flight_flag; eauto).
    reflexivity.
  - intros Hready. unfold returned. cbn [turn body].
    destruct (isInitializing (manager σ)) eqn:Hf.
    + rewrite initialize_in_progress by exact Hf. reflexivity.
    + rewrite initialize_already; [reflexivity|exact Hf|].
      unfold isInitialized in Hready. destruct (browser (manager σ)); [|discriminate].
      discriminate.
Qed.

Lemma initialize_single_flight_witness :
  isInitializing new_BrowserManager = false /\
  launches_in_flight
    (run_loop all_succeed
       [Invoke m_initialize; Invoke m_initialize; Invoke m_close; Resume 0;
        Invoke m_initialize]
       (boot new_BrowserManager)) <= 1 /\
  history (run_loop all_succeed [Invoke m_initialize; Invoke m_initialize]
             (boot new_BrowserManager)) =
    [Logged info "Initializing browser"; Issued Launch;
     Logged warn "Browser initialization already in progress"].
Proof.
  split; [reflexivity|]. split.
  - exact (proj1 (initialize_single_flight all_succeed
                    [Invoke m_initialize; Invoke m_initialize; Invoke m_close;
                     Resume 0; Invoke m_initialize]
                    new_BrowserManager eq_refl)).
  - pose proof (proj1 (proj2 (initialize_single_flight all_succeed
                                [Invoke m_initialize] new_BrowserManager eq_refl))
                  {| method := m_initialize;
                     status := q_status (advance initialize all_succeed 0
                                           new_BrowserManager) |}
                  (list_elem_of_here _ _) eq_refl) as H.
    exact (f_equal history H).
Defined.

(** ** The claims about [WargServer] *)

Lemma wp_broadcastToClients (rely : WargServer -> WargServer -> Prop)
    (message : WSMessage) (exclude : option Socket)
    (Q : list Event -> WargServer -> unit + Exn -> Prop) (this : WargServer) :
  Q (map (fun c => Sent c message) (recipients this exclude)) this (inl tt) ->
  wp rely (broadcastToClients message exclude) Q this.
Proof.
  unfold broadcastToClients, recipients. cbn [mbind prog_bind bind get wp].
  generalize (elements (connectedClients this)) as l.
  intros l. revert Q. induction l as [|c l IH]; intros Q HQ; [exact HQ|].
  cbn [foldr]. rewrite filter_cons in HQ.
  destruct (decide (live_other this exclude c)) as [[Hex Hopen]|Hnot].
  - rewrite !bool_decide_eq_true_2 by assumption. cbn. apply IH. exact HQ.
  - assert (bool_decide (Some c <> exclude) && bool_decide (readyState this c = OPEN)
            = false) as ->.
    { apply andb_false_iff.
      destruct (decide (Some c <> exclude)) as [Hex|Hex].
      - right. apply bool_decide_eq_false_2. intros Hopen. apply Hnot. split; assumption.
      - left. apply bool_decide_eq_false_2. exact Hex. }
    cbn. apply IH. exact HQ.
Qed.



Lemma filter_sent_to_is_sent (c : Socket) (evs : list Event) :
  List.filter (sent_to c) evs = List.filter (sent_to c) (List.filter is_sent evs).
Proof.
  induction evs as [|ev evs IH]; [reflexivity|].
  destruct ev; cbn; try exact IH. destruct (bool_decide (ws = c)); cbn; congruence.
Qed.

Lemma filter_sent_to_map (c : Socket) (message : WSMessage) (l : list Socket) :
  NoDup l ->
  List.filter (sent_to c) (map (fun c' => Sent c' message) l) =
    if bool_decide (c ∈ l) then [Sent c message] else [].
Proof.
  induction 1 as [|c' l Hnotin Hnodup IH]; [reflexivity|].
  cbn. destruct (decide (c' = c)) as [->|Hne].
  - rewrite bool_decide_eq_true_2 by reflexivity.
    rewrite bool_decide_eq_true_2 by apply list_elem_of_here.
    rewrite IH, bool_decide_eq_false_2 by exact Hnotin. reflexivity.
  - rewrite bool_decide_eq_false_2 by exact Hne. rewrite IH.
    rewrite (bool_decide_ext (c ∈ c' :: l) (c ∈ l)); [reflexivity|].
    rewrite elem_of_cons. split; [intros [Heq|Hin]|]; [congruence|exact Hin|auto].
Qed.

Lemma recipients_NoDup (this : WargServer) (exclude : option Socket) :
  NoDup (recipients this exclude).
Proof. apply NoDup_filter, NoDup_elements. Qed.

Lemma elem_of_recipients (this : WargServer) (exclude : option Socket) (c : Socket) :
  c ∈ recipients this exclude <->
  Some c <> exclude /\ readyState this c = OPEN /\ c ∈ connectedClients this.
Proof.
  unfold recipients. rewrite list_elem_of_filter, elem_of_elements.
  unfold live_other. tauto.
Qed.





(** C9: the [connection] handler adds the socket to [connectedClients]
    and sends it one message and no other: the [status] snapshot, with
    the manager's [isInitialized()] and the size of [connectedClients]
    taken after the socket was added. *)
Theorem on_connection_snapshot (ws : Socket) (answer : Answers)
    (meanwhile : nat -> WargServer -> WargServer) (n : nat) (this : WargServer) :
  let r := exec (on_connection ws) answer meanwhile n this in
  connectedClients (final r) = {[ws]} ∪ connectedClients this /\
  ws ∈ connectedClients (final r) /\
  List.filter is_sent (events r) =
    [Sent ws
       {| ws_type := JsString "status";
          ws_data :=
            JsObject
              [("initialized", JsBool (isInitialized (browserManager this)));
               ("connectedClients",
                JsNumber (pretty (size (connectedClients (final r)))))];
          ws_error := JsUndefined;
          ws_id := JsUndefined |}] /\
  (ws ∉ connectedClients this ->
   size (connectedClients (final r)) = S (size (connectedClients this))).
Proof.
  cbn. split; [reflexivity|]. split; [set_solver|]. split; [reflexivity|].
  intros Hnew. rewrite size_union by set_solver. rewrite size_singleton. reflexivity.
Qed.

Lemma on_connection_snapshot_witness :
  (4 ∉ connectedClients three_observers) /\
  size (connectedClients
          (final (run (on_connection 4) all_succeed three_observers))) = 4.
Proof.
  assert (4 ∉ connectedClients three_observers) as Hnew.
  { cbn. rewrite !not_elem_of_union, !not_elem_of_singleton.
    repeat split; discriminate. }
  split; [exact Hnew|].
  exact (proj2 (proj2 (proj2 (on_connection_snapshot 4 all_succeed (fun _ s => s) 0
                                three_observers))) Hnew).
Defined.

(** * Further properties of the code *)

(** ** [BrowserManager] *)

Ltac finish :=
  cbn in *;
  repeat first
    [ discriminate
    | match goal with
      | |- _ /\ _ => split
      | |- exists _, _ => eexists; try (split; [reflexivity|])
      | |- _ -> _ => let H := fresh in intro H; cbn in H
      end ];
  try reflexivity; try congruence; eauto.

(** X1: run on its own from a manager with no browser and the flag
    clear, [initialize()] ends with both handles set exactly when none of
    its six driver calls fails; when one fails it logs, rethrows, and
    leaves both handles [null].  Either way the flag is clear again. *)
Theorem initialize_outcome (answer : Answers) (this : BrowserManager) :
  isInitializing this = false ->
  browser this = None ->
  let r := run initialize answer this in
  isInitializing (final r) = false /\
  if existsb failed (events r) then
    exists e, result r = inr e /\ uninitialized (final r) /\
      last (events r) = Some (Logged err "Failed to initialize browser")
  else
    result r = inl tt /\ isInitialized (final r) = true /\
    last (events r) = Some (Logged info "Browser initialized successfully").
Proof.
  destruct this as [b p f]; cbn [isInitializing browser]; intros -> ->.
  unfold run, uninitialized. cbn.
  repeat match goal with
         | |- context [answer ?n ?op] => destruct (answer n op) as [?|?]; cbn
         end;
    finish.
Qed.

Lemma initialize_outcome_witness :
  isInitializing new_BrowserManager = false /\
  browser new_BrowserManager = None /\
  isInitialized (final (run initialize all_succeed new_BrowserManager)) = true.
Proof.
  split; [reflexivity|]. split; [reflexivity|].
  exact (proj1 (proj2 (proj2 (initialize_outcome all_succeed new_BrowserManager
                                eq_refl eq_refl)))).
Defined.

Lemma initialize_settles_wp (this : BrowserManager) :
  isInitializing this = false ->
  wp anything initialize
    (fun evs s r =>
       isInitializing s = false /\
       (forall e, r = inr e -> browser s = None /\ page s = None) /\
       existsb is_release evs = false)
    this.
Proof.
  destruct this as [b p f]; cbn [isInitializing]; intros ->.
  unfold initialize, initialize_try, initialize_catch, initialize_finally,
    this_page, this_browser.
  symbolic_conj; finish.
Qed.

(** X2: whatever other tasks do while it waits, an [initialize()] that
    found the flag clear leaves it clear when it ends; when it throws,
    both handles are [null]; and it never issues a close call, so a
    browser that was launched before a later step failed is dropped
    without [browser.close()]. *)
Theorem initialize_settles (answer : Answers)
    (meanwhile : nat -> BrowserManager -> BrowserManager) (n : nat)
    (this : BrowserManager) :
  isInitializing this = false ->
  let r := exec initialize answer meanwhile n this in
  isInitializing (final r) = false /\
  (forall e, result r = inr e -> uninitialized (final r)) /\
  existsb is_release (events r) = false.
Proof.
  intros Hflag.
  exact (wp_exec anything initialize answer meanwhile (fun _ _ => I) _ n this
           (initialize_settles_wp this Hflag)).
Qed.

Lemma initialize_settles_witness :
  isInitializing new_BrowserManager = false /\
  existsb is_release
    (events (run initialize (failing_at 1 timeout_error all_succeed)
               new_BrowserManager)) = false.
Proof.
  split; [reflexivity|].
  exact (proj2 (proj2 (initialize_settles (failing_at 1 timeout_error all_succeed)
                         (fun _ s => s) 0 new_BrowserManager eq_refl))).
Defined.

Lemma nullish_js_get (v : JsValue) (name : string) :
  nullish v = false -> exists x, js_get v name = inl x.
Proof. destruct v; intros H; try discriminate; cbn; eauto. Qed.

Lemma executeCommand_reports_wp (command : JsValue) (this : BrowserManager) :
  nullish command = false ->
  wp anything (executeCommand command)
    (fun evs _ r =>
       exists response, r = inl response /\
         (existsb failed evs = true -> success response = false) /\
         (success response = true -> error response = JsUndefined) /\
         (success response = false ->
          data response = JsUndefined /\ exists text, error response = JsString text))
    this.
Proof.
  intros H.
  destruct (nullish_js_get command "type" H) as [type Hty].
  destruct (nullish_js_get command "data" H) as [d Hd].
  unfold executeCommand, executeCommand_switch, executeCommand_catch,
    ok_with_url, this_page, member.
  rewrite Hty, Hd. clear Hty Hd H.
  unfold failure, ok. symbolic_conj; finish.
Qed.

(** X3: given an envelope, [executeCommand] never rejects, whatever the
    state, the driver's answers and the other tasks: it resolves with a
    response.  If a driver call failed the response has [success: false];
    a successful response carries no [error], a failed one carries an
    [error] text and no [data]. *)
Theorem executeCommand_reports (command : JsValue) (answer : Answers)
    (meanwhile : nat -> BrowserManager -> BrowserManager) (n : nat)
    (this : BrowserManager) :
  nullish command = false ->
  let r := exec (executeCommand command) answer meanwhile n this in
  exists response, result r = inl response /\
    (existsb failed (events r) = true -> success response = false) /\
    (success response = true -> error response = JsUndefined) /\
    (success response = false ->
     data response = JsUndefined /\ exists text, error response = JsString text).
Proof.
  intros H.
  exact (wp_exec anything (executeCommand command) answer meanwhile (fun _ _ => I)
           _ n this (executeCommand_reports_wp command this H)).
Qed.

Lemma executeCommand_reports_witness :
  nullish (JsObject [("type", JsString "click")]) = false /\
  exists response,
    result (run (executeCommand (JsObject [("type", JsString "click")]))
              all_succeed ready_manager) = inl response /\
    success response = false.
Proof.
  split; [reflexivity|].
  destruct (executeCommand_reports (JsObject [("type", JsString "click")])
              all_succeed (fun _ s => s) 0 ready_manager eq_refl)
    as (response & Hr & _).
  exists response. split; [exact Hr|].
  cbv in Hr. injection Hr as <-. reflexivity.
Defined.

(** X4: called with no envelope ([undefined] or [null]) on a manager that
    has a page, [executeCommand] rejects with the TypeError of reading
    [command.type]; nothing is logged, no driver operation is called and
    the manager is unchanged. *)
Theorem executeCommand_no_envelope (command : JsValue) (answer : Answers)
    (meanwhile : nat -> BrowserManager -> BrowserManager) (n : nat)
    (this : BrowserManager) :
  nullish command = true ->
  page this <> None ->
  exec (executeCommand command) answer meanwhile n this =
    {| final := this; events := [];
       result := inr (ErrorObject ("Cannot read properties of " +:+ js_to_string command
                                   +:+ " (reading 'type')")) |}.
Proof.
  destruct this as [b [p|] f]; cbn [page]; intros Hc Hp; [|contradiction].
  destruct command; try discriminate; reflexivity.
Qed.

Lemma executeCommand_no_envelope_witness :
  nullish JsUndefined = true /\ page ready_manager <> None /\
  result (run (executeCommand JsUndefined) all_succeed ready_manager) =
    inr (ErrorObject "Cannot read properties of undefined (reading 'type')").
Proof.
  assert (page ready_manager <> None) as Hp by discriminate.
  split; [reflexivity|]. split; [exact Hp|].
  exact (f_equal result
           (executeCommand_no_envelope JsUndefined all_succeed (fun _ s => s) 0
              ready_manager eq_refl Hp)).
Defined.

(** X5: a [navigate] command run on its own: the response carries the
    URL that [page.url()] reports after [page.goto] has settled; when
    [goto] is rejected (a navigation time-out, say) the response is the
    failure with the error's text and [page.url()] is not read.  The
    manager is unchanged either way. *)
Theorem navigate_round_trip (command d url : JsValue) (answer : Answers)
    (this : BrowserManager) (p : Page) :
  page this = Some p ->
  js_get command "type" = inl (JsString "navigate") ->
  js_get command "data" = inl d ->
  js_get d "url" = inl url ->
  run (executeCommand command) answer this =
    match answer 0 (Goto p url) with
    | inl _ =>
        {| final := this;
           events := [Logged info "Executing browser command";
                      Issued (Goto p url); Settled (Goto p url) true;
                      Issued (Url p); Settled (Url p) (succeeded (answer 1 (Url p)))]
                     ++ match answer 1 (Url p) with
                        | inl _ => []
                        | inr _ => [Logged err "Browser command failed"]
                        end;
           result :=
             inl match answer 1 (Url p) with
                 | inl u => ok (JsObject [("url", JsString u)])
                 | inr e => failure (error_text e)
                 end |}
    | inr e =>
        {| final := this;
           events := [Logged info "Executing browser command";
                      Issued (Goto p url); Settled (Goto p url) false;
                      Logged err "Browser command failed"];
           result := inl (failure (error_text e)) |}
    end.
Proof.
  destruct this as [b p' f]; cbn [page]; intros -> Hty Hd Hurl.
  unfold run, executeCommand, executeCommand_switch, executeCommand_catch,
    ok_with_url, this_page, member.
  rewrite Hty, Hd. cbn -[js_get]. rewrite Hurl. cbn.
  destruct (answer 0 (Goto p url)) as [[]|e]; cbn; [|reflexivity].
  destruct (answer 1 (Url p)) as [u|e]; reflexivity.
Qed.

Lemma navigate_round_trip_witness :
  result (run (executeCommand
                 (JsObject [("type", JsString "navigate");
                            ("data", JsObject [("url", JsString "https://example.com")])]))
            all_succeed ready_manager)
  = inl (ok (JsObject [("url", JsString "https://example.com/")])).
Proof.
  exact (f_equal result
           (navigate_round_trip
              (JsObject [("type", JsString "navigate");
                         ("data", JsObject [("url", JsString "https://example.com")])])
              (JsObject [("url", JsString "https://example.com")])
              (JsString "https://example.com") all_succeed ready_manager 2
              eq_refl eq_refl eq_refl eq_refl)).
Defined.

(** X6: a [navigate], [click], [type] or [evaluate] command without
    [data] fails before the driver is reached: the TypeError of reading
    the property of the missing payload is caught, logged and returned as
    a failed response; no driver operation is called. *)
Theorem executeCommand_missing_payload (command d : JsValue) (kind : string)
    (answer : Answers) (meanwhile : nat -> BrowserManager -> BrowserManager)
    (n : nat) (this : BrowserManager) :
  page this <> None ->
  js_get command "type" = inl (JsString kind) ->
  kind ∈ payload_kinds ->
  js_get command "data" = inl d ->
  nullish d = true ->
  exists property,
    exec (executeCommand command) answer meanwhile n this =
      {| final := this;
         events := [Logged info "Executing browser command";
                    Logged err "Browser command failed"];
         result := inl (failure ("Cannot read properties of " +:+ js_to_string d
                                 +:+ " (reading '" +:+ property +:+ "')")) |}.
Proof.
  destruct this as [b [p|] f]; cbn [page]; intros Hp Hty Hkind Hd Hnull;
    [|contradiction].
  unfold executeCommand, executeCommand_switch, executeCommand_catch,
    ok_with_url, this_page, member.
  rewrite Hty, Hd.
  unfold payload_kinds in Hkind.
  repeat (apply elem_of_cons in Hkind as [->|Hkind]);
    [| | | |apply elem_of_nil in Hkind; contradiction];
    destruct d; try discriminate; eexists; reflexivity.
Qed.

Lemma executeCommand_missing_payload_witness :
  exists property,
    result (run (executeCommand (JsObject [("type", JsString "click")]))
              all_succeed ready_manager)
    = inl (failure ("Cannot read properties of undefined (reading '"
                    +:+ property +:+ "')")).
Proof.
  assert (page ready_manager <> None) as Hp by discriminate.
  assert ("click" ∈ payload_kinds) as Hk.
  { apply list_elem_of_further, list_elem_of_here. }
  destruct (executeCommand_missing_payload
              (JsObject [("type", JsString "click")]) JsUndefined "click"
              all_succeed (fun _ s => s) 0 ready_manager Hp eq_refl Hk eq_refl eq_refl)
    as [property H].
  exists property. exact (f_equal result H).
Defined.

(** X7: a [screenshot] command needs no payload: when [data] is missing,
    or [data.fullPage] is missing or falsy, [page.screenshot] is called
    with [fullPage: false], and the response carries the image the
    driver returns. *)
Theorem screenshot_default (command d : JsValue) (answer : Answers)
    (this : BrowserManager) (p : Page) :
  page this = Some p ->
  js_get command "type" = inl (JsString "screenshot") ->
  js_get command "data" = inl d ->
  js_truthy (js_get_optional d "fullPage") = false ->
  let r := run (executeCommand command) answer this in
  List.filter is_driver_event (events r) =
    [Issued (Screenshot p (JsBool false));
     Settled (Screenshot p (JsBool false))
       (succeeded (answer 0 (Screenshot p (JsBool false))))] /\
  result r =
    inl match answer 0 (Screenshot p (JsBool false)) with
        | inl image => ok (JsObject [("screenshot", JsString image)])
        | inr e => failure (error_text e)
        end.
Proof.
  destruct this as [b p' f]; cbn [page]; intros -> Hty Hd Hfalsy.
  unfold run, executeCommand, executeCommand_switch, executeCommand_catch,
    this_page, member, js_or.
  rewrite Hty, Hd. cbn -[js_truthy js_get_optional]. rewrite Hfalsy. cbn.
  destruct (answer 0 (Screenshot p (JsBool false))) as [image|e]; split; reflexivity.
Qed.

Lemma screenshot_default_witness :
  result (run (executeCommand (JsObject [("type", JsString "screenshot")]))
            all_succeed ready_manager)
  = inl (ok (JsObject [("screenshot", JsString "iVBORw0KGgo=")])).
Proof.
  exact (proj2 (screenshot_default (JsObject [("type", JsString "screenshot")])
                  JsUndefined all_succeed ready_manager 2
                  eq_refl eq_refl eq_refl eq_refl)).
Defined.

Lemma no_lifecycle_executeCommand (command : JsValue) (this : BrowserManager) :
  wp anything (executeCommand command)
    (fun evs _ _ => existsb is_lifecycle evs = false) this.
Proof.
  unfold executeCommand, executeCommand_switch, executeCommand_catch,
    ok_with_url, this_page, member.
  symbolic.
Qed.

Lemma no_lifecycle_getPageInfo (this : BrowserManager) :
  wp anything getPageInfo (fun evs _ _ => existsb is_lifecycle evs = false) this.
Proof. unfold getPageInfo, this_page. symbolic. Qed.

(** X8: [executeCommand] and [getPageInfo] never launch a browser, open a
    page or close either, whatever the envelope, the state, the driver's
    answers and the other tasks. *)
Theorem commands_never_lifecycle (command : JsValue) (answer : Answers)
    (meanwhile : nat -> BrowserManager -> BrowserManager) (n : nat)
    (this : BrowserManager) :
  existsb is_lifecycle (events (exec (executeCommand command) answer meanwhile n this))
    = false /\
  existsb is_lifecycle (events (exec getPageInfo answer meanwhile n this)) = false.
Proof.
  split.
  - exact (wp_exec anything (executeCommand command) answer meanwhile (fun _ _ => I)
             _ n this (no_lifecycle_executeCommand command this)).
  - exact (wp_exec anything getPageInfo answer meanwhile (fun _ _ => I)
             _ n this (no_lifecycle_getPageInfo this)).
Qed.

(** X9: [getPageInfo] never rejects.  It resolves with [null] when there
    is no page or when the driver call fails, and with the title and the
    URL the driver reports otherwise. *)
Theorem getPageInfo_outcome (answer : Answers)
    (meanwhile : nat -> BrowserManager -> BrowserManager) (n : nat)
    (this : BrowserManager) :
  result (exec getPageInfo answer meanwhile n this) =
    inl match page this with
        | None => JsNull
        | Some p =>
            match answer n (TitleAndUrl p) with
            | inl (title, url) =>
                JsObject [("title", JsString title); ("url", JsString url)]
            | inr _ => JsNull
            end
        end.
Proof.
  destruct this as [b [p|] f]; cbn; [|reflexivity].
  destruct (answer n (TitleAndUrl p)) as [[title url]|e]; reflexivity.
Qed.

(** ** The event loop *)

Lemma holding_not_settled (t : Task) : holding t -> settled t = false.
Proof. unfold holding, settled. destruct (status t); [contradiction|reflexivity]. Qed.

(** X10: the flag is never left set: in every state the event loop
    reaches from a manager whose flag is clear, if every call made so far
    has settled then [isInitializing] is [false]. *)
Theorem flag_clear_when_settled (answer : Answers) (actions : list Action)
    (this : BrowserManager) :
  isInitializing this = false ->
  let σ := run_loop answer actions (boot this) in
  forallb settled (tasks σ) = true ->
  isInitializing (manager σ) = false.
Proof.
  intros Hflag σ Hall.
  assert (single_flight σ) as (h & Hh & _).
  { apply single_flight_run_loop, single_flight_boot, Hflag. }
  destruct h as [i|]; [|exact Hh].
  destruct Hh as (_ & t & Hi & Ht).
  apply holding_not_settled in Ht.
  rewrite forallb_forall in Hall.
  rewrite Hall in Ht; [discriminate|].
  apply list_elem_of_In, list_elem_of_lookup. eauto.
Qed.

Lemma flag_clear_when_settled_witness :
  isInitializing new_BrowserManager = false /\
  isInitializing
    (manager (run_loop (failing_at 0 timeout_error all_succeed)
                [Invoke m_initialize; Invoke m_initialize; Resume 0]
                (boot new_BrowserManager))) = false.
Proof.
  split; [reflexivity|].
  exact (flag_clear_when_settled (failing_at 0 timeout_error all_succeed)
           [Invoke m_initialize; Invoke m_initialize; Resume 0]
           new_BrowserManager eq_refl eq_refl).
Defined.

(** X11: at most one call of [initialize()] is in progress at any time:
    the calls that arrive while one is between its start and its end
    settle in their own turn. *)
Theorem one_initialize_in_progress (answer : Answers) (actions : list Action)
    (this : BrowserManager) :
  isInitializing this = false ->
  length (List.filter initializing (tasks (run_loop answer actions (boot this)))) <= 1.
Proof.
  intros Hflag.
  assert (single_flight (run_loop answer actions (boot this))) as (h & _ & Hidle).
  { apply single_flight_run_loop, single_flight_boot, Hflag. }
  apply (filter_at_most_one _ _ h).
  intros j t Hj Hne. apply idle_not_initializing. eapply Hidle; eauto.
Qed.

Lemma one_initialize_in_progress_witness :
  isInitializing new_BrowserManager = false /\
  length (List.filter initializing
            (tasks (run_loop all_succeed
                      [Invoke m_initialize; Invoke m_initialize; Resume 0;
                       Invoke m_initialize]
                      (boot new_BrowserManager)))) <= 1.
Proof.
  split; [reflexivity|].
  exact (one_initialize_in_progress all_succeed
           [Invoke m_initialize; Invoke m_initialize; Resume 0; Invoke m_initialize]
           new_BrowserManager eq_refl).
Defined.

Lemma writes_nothing_advance {St A : Type} (p : prog St A) (answer : Answers) :
  writes_nothing p ->
  forall (n : nat) (s : St),
    q_state (advance p answer n s) = s /\
    match q_status (advance p answer n s) with
    | Finished _ => True
    | Blocked op k => forall o, writes_nothing (k o)
    end.
Proof.
  induction p as [a|e|k IH|s0 k IH|ev k IH|op k IH|op k IH];
    simpl; intros Hp n s; auto; contradiction.
Qed.

Lemma body_writes_nothing (m : Method) :
  reads_only m = true -> writes_nothing (body m).
Proof.
  destruct m; intros H; try discriminate; cbn [body].
  - apply executeCommand_writes_nothing.
  - apply getPageInfo_writes_nothing.
Qed.

Lemma quiet_turn (answer : Answers) (a : Action) (σ : EventLoop) :
  Forall quiet_task (tasks σ) -> Forall quiet_task (tasks (turn answer a σ)).
Proof.
  intros Hσ. destruct a as [m|i]; cbn [turn].
  - cbn [tasks]. apply Forall_app. split; [exact Hσ|].
    apply Forall_singleton. unfold quiet_task. cbn [method status]. intros Hm.
    apply (writes_nothing_advance _ answer (body_writes_nothing m Hm)).
  - destruct (tasks σ !! i) as [[m [r|op k]]|] eqn:Hi; try exact Hσ.
    cbn [tasks]. apply Forall_insert; [exact Hσ|].
    unfold quiet_task. cbn [method status]. intros Hm.
    rewrite Forall_lookup in Hσ. specialize (Hσ i _ Hi Hm). cbn [status] in Hσ.
    apply (writes_nothing_advance _ answer (Hσ _)).
Qed.

Lemma quiet_run_loop (answer : Answers) (actions : list Action) :
  forall σ, Forall quiet_task (tasks σ) ->
            Forall quiet_task (tasks (run_loop answer actions σ)).
Proof.
  induction actions as [|a actions IH]; intros σ Hσ; [exact Hσ|].
  simpl. apply IH, quiet_turn, Hσ.
Qed.

(** X12: also when calls interleave, [executeCommand] and [getPageInfo]
    change no field: in every state the event loop reaches, a turn in
    which such a call starts or is resumed leaves the manager as it
    was. *)
Theorem readers_frame (answer : Answers) (actions : list Action)
    (this : BrowserManager) (a : Action) :
  let σ := run_loop answer actions (boot this) in
  reader_turn σ a ->
  manager (turn answer a σ) = manager σ.
Proof.
  intros σ Ha.
  assert (Forall quiet_task (tasks σ)) as Hσ.
  { apply quiet_run_loop. constructor. }
  destruct a as [m|i]; cbn [turn reader_turn] in *.
  - cbn [manager].
    apply (writes_nothing_advance _ answer (body_writes_nothing m Ha)).
  - destruct Ha as (t & Hi & Hm). rewrite Hi.
    destruct t as [m [r|op k]]; [reflexivity|]. cbn [manager].
    rewrite Forall_lookup in Hσ. specialize (Hσ i _ Hi Hm). cbn [status] in Hσ.
    apply (writes_nothing_advance _ answer (Hσ _)).
Qed.

Lemma readers_frame_witness :
  manager (turn all_succeed (Resume 1)
             (run_loop all_succeed
                [Invoke m_initialize; Resume 0; Resume 0; Resume 0;
                 Invoke (m_executeCommand (JsObject [("type", JsString "reload")]))]
                (boot new_BrowserManager)))
  = {| browser := Some 1; page := Some 2; isInitializing := false |}.
Proof.
  refine (readers_frame all_succeed
            [Invoke m_initialize; Resume 0; Resume 0; Resume 0;
             Invoke (m_executeCommand (JsObject [("type", JsString "reload")]))]
            new_BrowserManager (Resume 1) _).
  eexists. split; reflexivity.
Defined.

(** ** [WargServer]: the WebSocket handlers *)




Lemma filter_is_sent_map (message : WSMessage) (l : list Socket) :
  List.filter is_sent (map (fun c => Sent c message) l)
  = map (fun c => Sent c message) l.
Proof. induction l as [|c l IH]; [reflexivity|]. cbn. f_equal. exact IH. Qed.





Lemma live_other_test (view : WargServer) (exclude : option Socket) (c : Socket) :
  bool_decide (Some c <> exclude) && bool_decide (readyState view c = OPEN)
  = bool_decide (live_other view exclude c).
Proof.
  unfold live_other.
  destruct (decide (Some c <> exclude)) as [H1|H1];
    destruct (decide (readyState view c = OPEN)) as [H2|H2];
    rewrite ?(bool_decide_eq_true_2 _ H1), ?(bool_decide_eq_false_2 _ H1),
      ?(bool_decide_eq_true_2 _ H2), ?(bool_decide_eq_false_2 _ H2); cbn;
    symmetry;
    first [ apply bool_decide_eq_true_2; tauto | apply bool_decide_eq_false_2; tauto ].
Qed.






















Lemma exec_broadcastToClients (message : WSMessage) (exclude : option Socket)
    (answer : Answers) (meanwhile : nat -> WargServer -> WargServer) (n : nat)
    (this : WargServer) :
  exec (broadcastToClients message exclude) answer meanwhile n this =
    {| final := this;
       events := map (fun c => Sent c message) (recipients this exclude);
       result := inl tt |}.
Proof.
  pose proof (wp_exec anything (broadcastToClients message exclude) answer meanwhile
                (fun _ _ => I)
                (fun evs s r =>
                   evs = map (fun c => Sent c message) (recipients this exclude) /\
                   s = this /\ r = inl tt)
                n this
                (wp_broadcastToClients anything message exclude _ this
                   (conj eq_refl (conj eq_refl eq_refl))))
    as (Hevs & Hfin & Hres).
  destruct (exec (broadcastToClients message exclude) answer meanwhile n this)
    as [s evs r].
  cbn in *. subst. reflexivity.
Qed.

(** X19: [broadcastToClients] sends the message once to every registered
    socket that is open and is not the excluded one, and to no other;
    it does nothing else, never throws, and leaves the registry as it is:
    a socket that is registered but no longer open is skipped, not
    removed. *)
Theorem broadcast_delivery (message : WSMessage) (exclude : option Socket)
    (answer : Answers) (meanwhile : nat -> WargServer -> WargServer) (n : nat)
    (this : WargServer) :
  let r := exec (broadcastToClients message exclude) answer meanwhile n this in
  final r = this /\
  result r = inl tt /\
  List.filter is_sent (events r) = events r /\
  forall c,
    List.filter (sent_to c) (events r) =
      if bool_decide (Some c <> exclude /\ readyState this c = OPEN /\
                      c ∈ connectedClients this)
      then [Sent c message] else [].
Proof.
  cbv zeta. rewrite exec_broadcastToClients. cbn [final result events].
  split; [reflexivity|]. split; [reflexivity|].
  split; [apply filter_is_sent_map|].
  intros c. rewrite filter_sent_to_map by apply recipients_NoDup.
  rewrite (bool_decide_ext _ _ (elem_of_recipients this exclude c)). reflexivity.
Qed.

(** X20: the [close] handler of a socket removes it from the registry,
    sends nothing and leaves the manager alone; running it again changes
    nothing; and a broadcast made afterwards does not send to that
    socket, whatever its [readyState]. *)
Theorem on_close_unregisters (ws : Socket) (message : WSMessage)
    (exclude : option Socket) (answer : Answers)
    (meanwhile : nat -> WargServer -> WargServer) (n : nat) (this : WargServer) :
  let r := exec (on_close ws) answer meanwhile n this in
  connectedClients (final r) = connectedClients this ∖ {[ws]} /\
  browserManager (final r) = browserManager this /\
  List.filter is_sent (events r) = [] /\
  final (exec (on_close ws) answer meanwhile n (final r)) = final r /\
  List.filter (sent_to ws)
    (events (exec (broadcastToClients message exclude) answer meanwhile n (final r)))
  = [].
Proof.
  cbv zeta. rewrite exec_broadcastToClients. cbn.
  split; [reflexivity|]. split; [reflexivity|]. split; [reflexivity|]. split.
  - unfold set_connectedClients. cbn. f_equal.
    apply set_eq. intros x. rewrite !elem_of_difference. tauto.
  - rewrite filter_sent_to_map by apply recipients_NoDup.
    rewrite bool_decide_eq_false_2; [reflexivity|].
    rewrite elem_of_recipients. cbn.
    rewrite elem_of_difference, elem_of_singleton. tauto.
Qed.

(** X21: registering a socket that was not registered and then
    unregistering it gives back the registry there was, and a socket
    that is registered twice is counted once. *)
Theorem register_unregister (ws : Socket) (answer : Answers)
    (meanwhile : nat -> WargServer -> WargServer) (n : nat) (this : WargServer) :
  let registered := final (exec (on_connection ws) answer meanwhile n this) in
  let again := final (exec (on_connection ws) answer meanwhile n registered) in
  connectedClients again = connectedClients registered /\
  (ws ∉ connectedClients this ->
   connectedClients (final (exec (on_close ws) answer meanwhile n registered))
   = connectedClients this).
Proof.
  cbn. split.
  - apply set_eq. intros x. rewrite !elem_of_union. tauto.
  - intros Hnew. apply set_eq. intros x.
    rewrite elem_of_difference, elem_of_union, elem_of_singleton.
    split; [tauto|]. intros Hx. split; [tauto|]. congruence.
Qed.

Lemma register_unregister_witness :
  (4 ∉ connectedClients three_observers) /\
  connectedClients
    (final (run (on_close 4) all_succeed
              (final (run (on_connection 4) all_succeed three_observers))))
  = connectedClients three_observers.
Proof.
  assert (4 ∉ connectedClients three_observers) as Hnew.
  { cbn. rewrite !not_elem_of_union, !not_elem_of_singleton.
    repeat split; discriminate. }
  split; [exact Hnew|].
  exact (proj2 (register_unregister 4 all_succeed (fun _ s => s) 0 three_observers)
           Hnew).
Defined.

(** ** [WargServer]: the HTTP routes *)

(** A method of a field leaves alone what the field's setter leaves
    alone, if the other tasks do. *)
Lemma wp_zoom_frame {St M A G : Type} (proj : St -> M) (upd : M -> St -> St)
    (g : St -> G) (relySt : St -> St -> Prop) (relyM : M -> M -> Prop)
    (p : prog M A) :
  (forall m s, proj (upd m s) = m) ->
  (forall s s', relySt s s' -> relyM (proj s) (proj s')) ->
  (forall m s, g (upd m s) = g s) ->
  (forall s s', relySt s s' -> g s' = g s) ->
  forall (Q : list Event -> M -> A + Exn -> Prop) (s : St) (v : G),
    g s = v ->
    wp relyM p Q (proj s) ->
    wp relySt (zoom proj upd p) (fun evs s' r => Q evs (proj s') r /\ g s' = v) s.
Proof.
  intros Hlens Hrely Hupd Hkeep.
  induction p as [a|e|k IH|s0 k IH|ev k IH|op k IH|op k IH];
    intros Q s v Hv Hp; simpl in *.
  - auto.
  - auto.
  - apply IH; [exact Hv|exact Hp].
  - apply IH; [rewrite Hupd; exact Hv|rewrite Hlens; exact Hp].
  - apply (IH (fun evs => Q (ev :: evs))); [exact Hv|exact Hp].
  - intros o.
    apply (IH o (fun evs => Q (Issued op :: Settled op _ :: evs)));
      [exact Hv|apply Hp].
  - intros o s' Hr.
    apply (IH o (fun evs => Q (Issued op :: Settled op _ :: evs)));
      [rewrite (Hkeep _ _ Hr); exact Hv|apply Hp, Hrely, Hr].
Qed.

(** A manager method called from a route handler. *)
Lemma wp_route_manager {A : Type} (p : prog BrowserManager A)
    (Q : list Event -> BrowserManager -> A + Exn -> Prop) (x : Exchange) :
  wp anything p Q (browserManager (server x)) ->
  wp own_response (on_server (on_browserManager p))
    (fun evs x' r => Q evs (browserManager (server x')) r /\ res x' = res x) x.
Proof.
  intros Hp. unfold on_server.
  apply (wp_zoom_frame server set_server res own_response anything
           (on_browserManager p)
           (fun _ _ => eq_refl) (fun _ _ _ => I) (fun _ _ => eq_refl)
           (fun _ _ H => H)
           (fun evs s r => Q evs (browserManager s) r) x (res x) eq_refl).
  unfold on_browserManager.
  apply (wp_zoom browserManager set_browserManager anything anything);
    [reflexivity|intros; exact I|exact Hp].
Qed.

(** A broadcast made from a route handler. *)
Lemma wp_route_broadcast (message : WSMessage) (exclude : option Socket)
    (Q : list Event -> Exchange -> unit + Exn -> Prop) (x : Exchange) :
  Q (map (fun c => Sent c message) (recipients (server x) exclude)) x (inl tt) ->
  wp own_response (on_server (broadcastToClients message exclude)) Q x.
Proof.
  unfold on_server, broadcastToClients, recipients.
  cbn [mbind prog_bind bind get zoom wp].
  generalize (elements (connectedClients (server x))) as l.
  intros l. revert Q. induction l as [|c l IH]; intros Q HQ; [exact HQ|].
  cbn [foldr]. rewrite live_other_test. rewrite filter_cons in HQ.
  destruct (decide (live_other (server x) exclude c)) as [H|H].
  - rewrite bool_decide_eq_true_2 by exact H. cbn. apply IH. exact HQ.
  - rewrite bool_decide_eq_false_2 by exact H. cbn. apply IH. exact HQ.
Qed.




Lemma delivered_to_all (this : WargServer) (note : WSMessage) (evs : list Event) :
  List.filter is_sent evs = map (fun c => Sent c note) (recipients this None) ->
  delivered this note evs.
Proof.
  intros Hsent c. rewrite filter_sent_to_is_sent, Hsent.
  rewrite filter_sent_to_map by apply recipients_NoDup.
  destruct (decide (c ∈ connectedClients this /\ readyState this c = OPEN))
    as [[Hin Hopen]|Hno].
  - rewrite !bool_decide_eq_true_2; [reflexivity|split; assumption|].
    apply elem_of_recipients. split; [discriminate|]. split; assumption.
  - rewrite !bool_decide_eq_false_2; [reflexivity|exact Hno|].
    rewrite elem_of_recipients. tauto.
Qed.







Lemma failed_map_sent (message : WSMessage) (l : list Socket) :
  existsb failed (map (fun c => Sent c message) l) = false.
Proof. induction l as [|c l IH]; [reflexivity|exact IH]. Qed.

Lemma close_restart_wp (this : BrowserManager) :
  wp anything close
    (fun evs _ r =>
       List.filter is_sent evs = [] /\
       existsb is_launch_call evs = false /\
       (r = inl tt -> existsb failed evs = false))
    this.
Proof.
  unfold close, close_try, close_catch, this_page, this_browser.
  symbolic_conj; finish.
Qed.

Lemma initialize_restart_wp (this : BrowserManager) :
  wp anything initialize
    (fun evs s r =>
       List.filter is_sent evs = [] /\
       (forall e, r = inr e -> uninitialized s) /\
       (r = inl tt -> existsb failed evs = false))
    this.
Proof.
  destruct this as [b p f].
  unfold initialize, initialize_try, initialize_catch, initialize_finally,
    this_page, this_browser, uninitialized.
  symbolic_conj; finish.
Qed.

Lemma api_browser_restart_wp (x : Exchange) :
  wp own_response api_browser_restart
    (fun evs x' r =>
       r = inl tt /\
       (responded x x' 200 (success_body "Browser restarted") /\
        delivered (server x') (notice "browser_restarted" JsUndefined) evs /\
        existsb failed evs = false \/
        exists e, responded x x' 500 (failure_body e) /\
                  List.filter is_sent evs = [] /\
                  (existsb is_launch_call evs = false \/
                   uninitialized (browserManager (server x')))))
    x.
Proof.
  unfold api_browser_restart. apply wp_try_catch.
  change (on_server (on_browserManager close);;
          on_server (on_browserManager initialize);;
          log info "Browser restarted via API";;
          res_json 200 (success_body "Browser restarted");;
          on_server (broadcastToClients (notice "browser_restarted" JsUndefined) None))
    with (bind (on_server (on_browserManager close))
            (fun _ => bind (on_server (on_browserManager initialize))
               (fun _ => bind (log info "Browser restarted via API")
                  (fun _ => bind (res_json 200 (success_body "Browser restarted"))
                     (fun _ => on_server
                                 (broadcastToClients
                                    (notice "browser_restarted" JsUndefined) None)))))).
  apply wp_bind.
  eapply wp_mono; [|apply wp_route_manager, close_restart_wp].
  intros evs1 x1 r1 [(Hs1 & Hl1 & Hf1) Hres1]. cbn beta iota.
  destruct r1 as [[]|e].
  - apply wp_bind.
    eapply wp_mono; [|apply wp_route_manager, initialize_restart_wp].
    intros evs2 x2 r2 [(Hs2 & Hu2 & Hf2) Hres2]. cbn beta iota.
    destruct r2 as [[]|e].
    + unfold log, emit, res_json, modify. cbn [bind wp]. apply wp_route_broadcast.
      split; [reflexivity|]. left. split; [|split].
      * unfold responded. cbn. rewrite Hres2, Hres1. reflexivity.
      * apply delivered_to_all.
        rewrite !List.filter_app, Hs1, Hs2. cbn [List.filter is_sent app].
        rewrite filter_is_sent_map. reflexivity.
      * rewrite !existsb_app, (Hf1 eq_refl), (Hf2 eq_refl). cbn.
        apply failed_map_sent.
    + unfold log, emit, res_json, modify. cbn [mbind prog_bind bind wp].
      split; [reflexivity|]. right. exists e. split; [|split].
      * unfold responded. cbn. rewrite Hres2, Hres1. reflexivity.
      * rewrite !List.filter_app, Hs1, Hs2. reflexivity.
      * right. apply (Hu2 e eq_refl).
  - unfold log, emit, res_json, modify. cbn [mbind prog_bind bind wp].
    split; [reflexivity|]. right. exists e. split; [|split].
    + unfold responded. cbn. rewrite Hres1. reflexivity.
    + rewrite !List.filter_app, Hs1. reflexivity.
    + left. rewrite existsb_app, Hl1. reflexivity.
Qed.

(** X25: [POST /api/browser/restart] writes exactly one response.  With
    200, no driver call failed and every registered, open observer is
    sent one [browser_restarted].  With 500 nothing is sent to anyone,
    and either [puppeteer.launch] was never called (it was [close()] that
    threw, and [initialize()] was not attempted) or the manager holds no
    handle. *)
Theorem api_browser_restart_responds (answer : Answers)
    (meanwhile : nat -> Exchange -> Exchange) (n : nat) (x : Exchange) :
  (forall i x, res (meanwhile i x) = res x) ->
  let r := exec api_browser_restart answer meanwhile n x in
  result r = inl tt /\
  (responded x (final r) 200 (success_body "Browser restarted") /\
   delivered (server (final r)) (notice "browser_restarted" JsUndefined) (events r) /\
   existsb failed (events r) = false \/
   exists e, responded x (final r) 500 (failure_body e) /\
             List.filter is_sent (events r) = [] /\
             (existsb is_launch_call (events r) = false \/
              uninitialized (browserManager (server (final r))))).
Proof.
  intros Hres.
  exact (wp_exec own_response api_browser_restart answer meanwhile Hres _ n x
           (api_browser_restart_wp x)).
Qed.

Lemma api_browser_restart_responds_witness :
  result (run api_browser_restart (failing_at 0 timeout_error all_succeed)
            (request three_observers)) = inl tt.
Proof.
  exact (proj1 (api_browser_restart_responds
                  (failing_at 0 timeout_error all_succeed) (fun _ x => x) 0
                  (request three_observers) (fun _ _ => eq_refl))).
Defined.




